(** * Status and StatusOr<T> of the Mystic core library

    A shallow embedding of
    - [StatusCode] and [StatusCodeToString]  (MysticCore/Status/StatusCode.h),
    - [Status]                               (mystic/status/status.hpp),
    - [StatusOr<T>]                          (MysticCore/Status/StatusOr.h),
    with the objects of a program kept in a store indexed by address, so
    that [this == &other] and the state a moved-from object is left in are
    part of the model. *)

From stdpp Require Import base option gmap strings.

Open Scope string_scope.

(** ** Results and references *)

(** How a call into the library ends: it returns, a contract check
    terminates the program, or it reads storage in which no object lives
    (behaviour the language leaves undefined). *)
Inductive outcome (A : Type) : Type :=
  | Ret (a : A)
  | Fatal
  | Undefined.
Arguments Ret {A} a.
Arguments Fatal {A}.
Arguments Undefined {A}.

#[global] Instance outcome_ret : MRet outcome := @Ret.
#[global] Instance outcome_bind : MBind outcome := fun A B f m =>
  match m with
  | Ret a => f a
  | Fatal => Fatal
  | Undefined => Undefined
  end.

(** What a function whose return type is a reference hands out: the
    object referred to is alive, or its lifetime ended before the caller
    can use it.  [Dangling last] keeps the value the object had when it
    was destroyed; no read can obtain it. *)
Inductive reference (A : Type) : Type :=
  | Alive (a : A)
  | Dangling (last : A).
Arguments Alive {A} a.
Arguments Dangling {A} last.

(** Reading through a reference. *)
Definition read_reference {A : Type} (r : reference A) : outcome A :=
  match r with
  | Alive a => Ret a
  | Dangling _ => Undefined
  end.

(** ** StatusCode.h *)

(** [enum class StatusCode : uint32_t].  A scoped enumeration with a fixed
    underlying type holds every value of that type, so a code is modelled
    by its underlying value; the enumerators are the sixteen constants
    below. *)
Module StatusCode.

Definition t : Type := N.

Definition OK : t := 0%N.
Definition CANCELLED : t := 1%N.
Definition INVALID_ARGUMENT : t := 2%N.
Definition NOT_FOUND : t := 3%N.
Definition ALREADY_EXISTS : t := 4%N.
Definition PERMISSION_DENIED : t := 5%N.
Definition UNAUTHENTICATED : t := 6%N.
Definition OUT_OF_RANGE : t := 7%N.
Definition DEADLINE_EXCEEDED : t := 8%N.
Definition RESOURCE_EXHAUSTED : t := 9%N.
Definition FAILED_PRECONDITION : t := 10%N.
Definition ABORTED : t := 11%N.
Definition UNIMPLEMENTED : t := 12%N.
Definition INTERNAL : t := 13%N.
Definition UNAVAILABLE : t := 14%N.
Definition DATA_LOSS : t := 15%N.

(** The enumerators, in declaration order. *)
Definition enumerators : list t :=
  [OK; CANCELLED; INVALID_ARGUMENT; NOT_FOUND; ALREADY_EXISTS;
   PERMISSION_DENIED; UNAUTHENTICATED; OUT_OF_RANGE; DEADLINE_EXCEEDED;
   RESOURCE_EXHAUSTED; FAILED_PRECONDITION; ABORTED; UNIMPLEMENTED;
   INTERNAL; UNAVAILABLE; DATA_LOSS].

End StatusCode.

(** [const std::string& StatusCodeToString(StatusCode code)]: the
    [switch] over the code, one [case] per enumerator and a [default].
    Each [return] names a string literal; the reference returned is
    bound to the temporary [std::string] built from the literal, and the
    temporary is destroyed when the [return] statement ends.  On every
    path the caller receives a reference to a destroyed string. *)
Definition StatusCodeToString (code : StatusCode.t) : reference string :=
  match code with
  | 0%N => Dangling "Ok"
  | 1%N => Dangling "Cancelled"
  | 2%N => Dangling "Invalid Argument"
  | 3%N => Dangling "Not Found"
  | 4%N => Dangling "Already Exists"
  | 5%N => Dangling "Permission Denied"
  | 6%N => Dangling "Unauthenticated"
  | 7%N => Dangling "Out of Range"
  | 8%N => Dangling "Deadline Exceeded"
  | 9%N => Dangling "Resource Exhausted"
  | 10%N => Dangling "Failed Precondition"
  | 11%N => Dangling "Aborted"
  | 12%N => Dangling "Unimplemented"
  | 13%N => Dangling "Internal"
  | 14%N => Dangling "Unavailable"
  | 15%N => Dangling "Data Loss"
  | _ => Dangling "Unknown"
  end.

(** ** status.hpp *)

Module Status.

(** [class Status]: the private members [m_Code] and [m_Message]. *)
Record t : Type := Build {
  m_Code : StatusCode.t;
  m_Message : string
}.

(** [Status() : m_Code(StatusCode::OK) {}]; the message is
    default-constructed. *)
Definition default : t := {| m_Code := StatusCode.OK; m_Message := "" |}.

(** [bool ok() const { return m_Code == StatusCode::OK; }] *)
Definition ok (s : t) : bool := N.eqb (m_Code s) StatusCode.OK.

Definition code (s : t) : StatusCode.t := m_Code s.

Definition message (s : t) : string := m_Message s.

(** [static Status OK() { return Status(); }] *)
Definition OK : t := default.

(** [ss << "[" << StatusCodeToString(m_Code) << "] " << m_Message]:
    the stream reads the string the returned reference refers to. *)
Definition ToString (s : t) : outcome string :=
  name ← read_reference (StatusCodeToString (m_Code s));
  Ret ("[" +:+ name +:+ "] " +:+ m_Message s).

End Status.

(** [Status OkStatus() { return Status::OK(); }] *)
Definition OkStatus : Status.t := Status.OK.

(** ** Assert.h *)

(** Modelled from the spec: the macro [MYSTIC_CHECK] of
    MysticCore/Assert/Assert.h, which is not among the sources.  The
    specification describes it as a fatal contract check: a violated
    condition terminates the operation instead of returning an error. *)
Definition MYSTIC_CHECK (cond : bool) : outcome unit :=
  if cond then Ret () else Fatal.

(** Modelled from the spec: the macro the error constructor of [StatusOr]
    invokes (spelled [MYSTIC_DCKECK] there), also absent from the sources.
    The specification makes no difference between the two checks: both
    are fatal. *)
Definition MYSTIC_DCKECK (cond : bool) : outcome unit :=
  if cond then Ret () else Fatal.

(** ** Moved-from values *)

(** The state in which a move constructor or move assignment of [A]
    leaves its source.  For [std::string] and for a template argument [T]
    the library does not fix it, so it is a parameter of the model.  A
    copy, and the target of a move, have the value the source had. *)
Class Movable (A : Type) : Type := moved_from : A -> A.

(** The implicit move operations of [Status]: the code is an enumeration
    value and is copied, the message is moved.  The result is the new
    object paired with what is left in the source. *)
Definition Status_move `{Movable string} (s : Status.t) : Status.t * Status.t :=
  (s, {| Status.m_Code := Status.m_Code s;
         Status.m_Message := moved_from (Status.m_Message s) |}).

(** ** StatusOr.h *)

(** [class StatusOr<T>].  [m_Storage] is the raw buffer
    [alignas(T) unsigned char m_Storage[sizeof(T)]]: [Some v] when an
    object of type [T] with value [v] has been constructed in it and not
    yet destructed, [None] otherwise.  Whether the buffer holds an object
    is independent of the flag [m_IsValue]. *)
Record StatusOr (T : Type) : Type := MkStatusOr {
  m_Status : Status.t;
  m_IsValue : bool;
  m_Storage : option T
}.
Arguments MkStatusOr {T} _ _ _.
Arguments m_Status {T} _.
Arguments m_IsValue {T} _.
Arguments m_Storage {T} _.

(** Addresses of [StatusOr] objects. *)
Definition addr : Type := nat.

(** The program state the library acts on: the [StatusOr<T>] objects
    whose lifetime has begun and not ended, by address, and two counters
    in the manner of an instance-counting payload type: how often a [T]
    was constructed in the storage of a container (placement [new]) and
    how often [~T()] was run on such storage. *)
Record World (T : Type) : Type := MkWorld {
  objects : gmap addr (StatusOr T);
  ctor_calls : nat;
  dtor_calls : nat
}.
Arguments MkWorld {T} _ _ _.
Arguments objects {T} _.
Arguments ctor_calls {T} _.
Arguments dtor_calls {T} _.

Section StatusOr_operations.

Context {T : Type} `{MT : Movable T} `{MS : Movable string}.

Definition empty_world : World T := MkWorld ∅ 0 0.

(** Payload instances constructed in container storage and not
    destructed. *)
Definition live_instances (w : World T) : Z :=
  (Z.of_nat (ctor_calls w) - Z.of_nat (dtor_calls w))%Z.

Definition deref_addr (a : addr) (w : World T) : outcome (StatusOr T) :=
  match objects w !! a with
  | Some s => Ret s
  | None => Undefined
  end.

(** [*reinterpret_cast<T*>(m_Storage)] *)
Definition read_storage (s : StatusOr T) : outcome T :=
  match m_Storage s with
  | Some v => Ret v
  | None => Undefined
  end.

Definition store (a : addr) (s : StatusOr T) (w : World T) : World T :=
  MkWorld (<[a := s]> (objects w)) (ctor_calls w) (dtor_calls w).

Definition count_ctor (w : World T) : World T :=
  MkWorld (objects w) (S (ctor_calls w)) (dtor_calls w).

Definition count_dtor (w : World T) : World T :=
  MkWorld (objects w) (ctor_calls w) (S (dtor_calls w)).

(** The lifetime of the container at [a] ends. *)
Definition release (a : addr) (w : World T) : World T :=
  MkWorld (delete a (objects w)) (ctor_calls w) (dtor_calls w).

(** *** Constructors and destructor *)

(** [StatusOr(T value) : m_IsValue(true), m_Status(Status::OK())
     { new (m_Storage) T(std::move(value)); }] *)
Definition ctor_value (this : addr) (value : T) (w : World T)
  : outcome (World T) :=
  Ret (count_ctor (store this (MkStatusOr Status.OK true (Some value)) w)).

(** [StatusOr(Status status) : m_IsValue(false), m_Status(std::move(status))
     { MYSTIC_DCKECK(!status.ok()) }].  The check reads the parameter
    after it has been moved from. *)
Definition ctor_status (this : addr) (status : Status.t) (w : World T)
  : outcome (World T) :=
  let '(mine, status') := Status_move status in
  let w1 := store this (MkStatusOr mine false None) w in
  _ ← MYSTIC_DCKECK (negb (Status.ok status'));
  Ret w1.

(** [explicit StatusOr(in_place_t tag, Args&&... args)]; [made] is the
    object [T(std::forward<Args>(args)...)] builds. *)
Definition ctor_in_place (this : addr) (made : T) (w : World T)
  : outcome (World T) :=
  Ret (count_ctor (store this (MkStatusOr Status.OK true (Some made)) w)).

(** [~StatusOr()]; afterwards the lifetime of the container is over. *)
Definition dtor (this : addr) (w : World T) : outcome (World T) :=
  s ← deref_addr this w;
  w1 ← (if m_IsValue s
        then _ ← read_storage s;
             Ret (count_dtor
                    (store this (MkStatusOr (m_Status s) false None) w))
        else Ret w);
  Ret (release this w1).

(** [StatusOr(const StatusOr& other)] *)
Definition copy_ctor (this other : addr) (w : World T) : outcome (World T) :=
  o ← deref_addr other w;
  if m_IsValue o
  then v ← read_storage o;
       Ret (count_ctor (store this (MkStatusOr (m_Status o) true (Some v)) w))
  else Ret (store this (MkStatusOr (m_Status o) false None) w).

(** [StatusOr(StatusOr&& other)].  [m_Status(other.m_Status)] copies
    (a named reference is an lvalue), and
    [std::move] applied to the storage of [other] read as a [const T] is a
    [const T&&], which selects the copy constructor of [T]: the object
    in the storage of [other] keeps its value.  Only the flag of
    [other] changes. *)
Definition move_ctor (this other : addr) (w : World T) : outcome (World T) :=
  o ← deref_addr other w;
  if m_IsValue o
  then v ← read_storage o;
       let w1 := count_ctor
                   (store this (MkStatusOr (m_Status o) true (Some v)) w) in
       Ret (store other (MkStatusOr (m_Status o) false (m_Storage o)) w1)
  else Ret (store this (MkStatusOr (m_Status o) false None) w).

(** *** Assignment *)

(** [StatusOr& operator=(const StatusOr& other)] *)
Definition copy_assign (this other : addr) (w : World T) : outcome (World T) :=
  if decide (this = other) then Ret w
  else
    s ← deref_addr this w;
    o ← deref_addr other w;
    if m_IsValue o then
      if m_IsValue s then
        (* Case 1: the copy assignment of T *)
        _ ← read_storage s;
        v ← read_storage o;
        Ret (store this (MkStatusOr (m_Status s) true (Some v)) w)
      else
        (* Case 2 *)
        v ← read_storage o;
        Ret (count_ctor
               (store this (MkStatusOr (m_Status o) true (Some v)) w))
    else
      if m_IsValue s then
        (* Case 3 *)
        _ ← read_storage s;
        Ret (count_dtor (store this (MkStatusOr (m_Status o) false None) w))
      else
        (* Case 4 *)
        Ret (store this (MkStatusOr (m_Status o) false (m_Storage s)) w).

(** [StatusOr& operator=(StatusOr&& other) noexcept] *)
Definition move_assign (this other : addr) (w : World T) : outcome (World T) :=
  if decide (this = other) then Ret w
  else
    s ← deref_addr this w;
    o ← deref_addr other w;
    if m_IsValue o then
      if m_IsValue s then
        (* Case 1: the move assignment of T *)
        _ ← read_storage s;
        v ← read_storage o;
        let w1 := store this (MkStatusOr (m_Status s) true (Some v)) w in
        Ret (store other
               (MkStatusOr (m_Status o) false (Some (moved_from v))) w1)
      else
        (* Case 2 *)
        let '(mine, residue) := Status_move (m_Status o) in
        v ← read_storage o;
        let w1 := count_ctor
                    (store this (MkStatusOr mine true (Some v)) w) in
        Ret (store other (MkStatusOr residue false (Some (moved_from v))) w1)
    else
      let '(mine, residue) := Status_move (m_Status o) in
      if m_IsValue s then
        (* Case 3 *)
        _ ← read_storage s;
        let w1 := count_dtor (store this (MkStatusOr mine false None) w) in
        Ret (store other (MkStatusOr residue false (m_Storage o)) w1)
      else
        (* Case 4 *)
        let w1 := store this (MkStatusOr mine false (m_Storage s)) w in
        Ret (store other (MkStatusOr residue false (m_Storage o)) w1).

(** *** Accessors *)

(** [bool ok() const { return m_IsValue; }] *)
Definition ok (s : StatusOr T) : bool := m_IsValue s.

(** [const Status& status() const { return m_Status; }] *)
Definition status (s : StatusOr T) : Status.t := m_Status s.

(** [const T& value() const&] *)
Definition value_const (s : StatusOr T) : outcome T :=
  _ ← MYSTIC_CHECK (Status.ok (m_Status s));
  read_storage s.

(** [T& value() &] *)
Definition value_lvalue (s : StatusOr T) : outcome T :=
  _ ← MYSTIC_CHECK (Status.ok (m_Status s));
  read_storage s.

(** [T value() &&]: the flag is cleared and the result is
    move-constructed from the object in the storage, which stays there
    in its moved-from state. *)
Definition value_rvalue (this : addr) (w : World T) : outcome (T * World T) :=
  s ← deref_addr this w;
  _ ← MYSTIC_CHECK (Status.ok (m_Status s));
  v ← read_storage s;
  Ret (v, store this (MkStatusOr (m_Status s) false (Some (moved_from v))) w).

(** [const T& operator*() const&] *)
Definition deref_const (s : StatusOr T) : outcome T :=
  _ ← MYSTIC_CHECK (Status.ok (m_Status s));
  read_storage s.

(** [T& operator*() &] *)
Definition deref_lvalue (s : StatusOr T) : outcome T :=
  _ ← MYSTIC_CHECK (Status.ok (m_Status s));
  read_storage s.

(** [T&& operator*() && { MYSTIC_CHECK(m_Status.ok())
     return std::move(value()); }].  Inside a member function [*this]
    is an lvalue, so [value()] is the overload [T& value() &]; the
    result is a reference to the object in the storage and no member is
    written. *)
Definition deref_rvalue (this : addr) (w : World T) : outcome (T * World T) :=
  s ← deref_addr this w;
  _ ← MYSTIC_CHECK (Status.ok (m_Status s));
  v ← value_lvalue s;
  Ret (v, w).

(** The two overloads of [operator->] are declared to return [const T&]
    and [T&] and return the pointer [reinterpret_cast<T*>(m_Storage)];
    a function template member with such a body cannot be instantiated,
    so no program calls them and they have no counterpart here. *)

(** [const T& value_or(T default_value) const&
     { return ok() ? value() : default_value; }] *)
Definition value_or (s : StatusOr T) (default_value : T) : outcome T :=
  if ok s then value_const s else Ret default_value.

(** [explicit operator bool() const { return ok(); }] *)
Definition operator_bool (s : StatusOr T) : bool := ok s.

(** *** Programs using the class *)

(** One use of the public interface on the object at an address. *)
Inductive call : Type :=
  | CtorValue (this : addr) (value : T)
  | CtorStatus (this : addr) (st : Status.t)
  | CtorInPlace (this : addr) (made : T)
  | CopyCtor (this other : addr)
  | MoveCtor (this other : addr)
  | CopyAssign (this other : addr)
  | MoveAssign (this other : addr)
  | Dtor (this : addr)
  | CallOk (this : addr)
  | CallStatus (this : addr)
  | CallBool (this : addr)
  | ValueConst (this : addr)
  | ValueLvalue (this : addr)
  | ValueRvalue (this : addr)
  | DerefConst (this : addr)
  | DerefLvalue (this : addr)
  | DerefRvalue (this : addr)
  | ValueOr (this : addr) (default_value : T).

(** A constructor runs on storage in which no container lives. *)
Definition unused (this : addr) (w : World T) : outcome unit :=
  match objects w !! this with
  | Some _ => Undefined
  | None => Ret ()
  end.

(** A call that only reads: the state is kept when the call returns. *)
Definition observe {A : Type} (f : StatusOr T -> outcome A)
    (this : addr) (w : World T) : outcome (World T) :=
  s ← deref_addr this w;
  _ ← f s;
  Ret w.

Definition exec (c : call) (w : World T) : outcome (World T) :=
  match c with
  | CtorValue this v => _ ← unused this w; ctor_value this v w
  | CtorStatus this st => _ ← unused this w; ctor_status this st w
  | CtorInPlace this v => _ ← unused this w; ctor_in_place this v w
  | CopyCtor this other => _ ← unused this w; copy_ctor this other w
  | MoveCtor this other => _ ← unused this w; move_ctor this other w
  | CopyAssign this other => copy_assign this other w
  | MoveAssign this other => move_assign this other w
  | Dtor this => dtor this w
  | CallOk this => observe (fun s => Ret (ok s)) this w
  | CallStatus this => observe (fun s => Ret (status s)) this w
  | CallBool this => observe (fun s => Ret (operator_bool s)) this w
  | ValueConst this => observe value_const this w
  | ValueLvalue this => observe value_lvalue this w
  | ValueRvalue this => '(_, w') ← value_rvalue this w; Ret w'
  | DerefConst this => observe deref_const this w
  | DerefLvalue this => observe deref_lvalue this w
  | DerefRvalue this => '(_, w') ← deref_rvalue this w; Ret w'
  | ValueOr this d => observe (fun s => value_or s d) this w
  end.

(** A sequence of calls, stopped by the first that does not return. *)
Fixpoint run (cs : list call) (w : World T) : outcome (World T) :=
  match cs with
  | [] => Ret w
  | c :: cs' => w' ← exec c w; run cs' w'
  end.

(** The states a program can be in. *)
Inductive reachable : World T -> Prop :=
  | reachable_start : reachable empty_world
  | reachable_exec w c w' :
      reachable w -> exec c w = Ret w' -> reachable w'.

(** *** Predicates on a container *)

(** A constructed [T] is held, as the container itself records it. *)
Definition value_live (s : StatusOr T) : bool := m_IsValue s.

(** A meaningful error is held: the stored status is not OK. *)
Definition error_live (s : StatusOr T) : bool := negb (Status.ok (m_Status s)).

(** Exactly one of the two is live. *)
Definition exactly_one_live (s : StatusOr T) : Prop :=
  xorb (value_live s) (error_live s) = true.

(** What the operations maintain: a container flagged as holding a
    value has an OK status and an object in its storage. *)
Definition consistent (s : StatusOr T) : Prop :=
  m_IsValue s = true ->
  Status.ok (m_Status s) = true /\ is_Some (m_Storage s).

(** Running the destructor of the container at [a] calls no
    constructor and no destructor of [T] and leaves every other
    container as it is. *)
Definition destructor_skips_payload (a : addr) (w : World T) : Prop :=
  exists w',
    dtor a w = Ret w'
    /\ ctor_calls w' = ctor_calls w
    /\ dtor_calls w' = dtor_calls w
    /\ forall b, b <> a -> objects w' !! b = objects w !! b.

Definition world_consistent (w : World T) : Prop :=
  map_Forall (fun _ s => consistent s) (objects w).

End StatusOr_operations.

Arguments call T : clear implicits.

(** ** Instances used in examples *)

(** [int]: a move leaves the source as it was. *)
Definition Movable_int : Movable Z := fun v => v.

(** [std::string] as the common implementations have it: a moved-from
    string is empty. *)
Definition Movable_std_string : Movable string := fun _ => "".

(** Two programs over [StatusOr<int>] and the states they end in. *)

Definition missing_key : Status.t :=
  Status.Build StatusCode.NOT_FOUND "missing key".

(** A container holding 42, the same after it was moved from, and a
    container holding the error. *)
Definition holds_42 : StatusOr Z := MkStatusOr Status.OK true (Some 42%Z).
Definition moved_42 : StatusOr Z := MkStatusOr Status.OK false (Some 42%Z).
Definition holds_missing_key : StatusOr Z := MkStatusOr missing_key false None.

(** [StatusOr<int> a(42); StatusOr<int> c(std::move(a));] with [a] at
    address 0 and [c] at address 1. *)
Definition move_program : list (call Z) :=
  [CtorValue 0%nat 42%Z; MoveCtor 1%nat 0%nat].

Definition move_world : World Z :=
  MkWorld (<[0%nat := moved_42]>
             (<[1%nat := holds_42]> ∅))
          2 0.

(** [StatusOr<int> a(42); StatusOr<int> b(missing_key);] with [a] at
    address 0 and [b] at address 1. *)
Definition both_program : list (call Z) :=
  [CtorValue 0%nat 42%Z; CtorStatus 1%nat missing_key].

Definition both_world : World Z :=
  MkWorld (<[0%nat := holds_42]>
             (<[1%nat := holds_missing_key]> ∅))
          1 0.

(** The first program followed by [StatusOr<int> d(a);], a copy of the
    moved-from [a], at address 2. *)
Definition copy_of_moved_program : list (call Z) :=
  move_program ++ [CopyCtor 2%nat 0%nat].

(** The container [d] of that program: no value, an OK status, and no
    object in its storage. *)
Definition holds_nothing : StatusOr Z := MkStatusOr Status.OK false None.

Definition copy_of_moved_world : World Z :=
  MkWorld (<[0%nat := moved_42]>
             (<[1%nat := holds_42]>
                (<[2%nat := holds_nothing]> ∅)))
          2 0.

(** The first program followed by the end of both objects. *)
Definition move_and_destroy_program : list (call Z) :=
  move_program ++ [Dtor 0%nat; Dtor 1%nat].

(** ** The display-name table of the specification *)

(** The table of section 6 of the specification, row by row; the last
    row, for anything else, is ["Unknown"]. *)
Definition display_name_table : list (StatusCode.t * string) :=
  [ (StatusCode.OK, "Ok");
    (StatusCode.CANCELLED, "Cancelled");
    (StatusCode.INVALID_ARGUMENT, "Invalid Argument");
    (StatusCode.NOT_FOUND, "Not Found");
    (StatusCode.ALREADY_EXISTS, "Already Exists");
    (StatusCode.PERMISSION_DENIED, "Permission Denied");
    (StatusCode.UNAUTHENTICATED, "Unauthenticated");
    (StatusCode.OUT_OF_RANGE, "Out of Range");
    (StatusCode.DEADLINE_EXCEEDED, "Deadline Exceeded");
    (StatusCode.RESOURCE_EXHAUSTED, "Resource Exhausted");
    (StatusCode.FAILED_PRECONDITION, "Failed Precondition");
    (StatusCode.ABORTED, "Aborted");
    (StatusCode.UNIMPLEMENTED, "Unimplemented");
    (StatusCode.INTERNAL, "Internal");
    (StatusCode.UNAVAILABLE, "Unavailable");
    (StatusCode.DATA_LOSS, "Data Loss") ].

(** ** Measures on states *)

Section StatusOr_measures.

Context {T : Type}.

(** The containers of a state that report a value. *)
Definition value_holders (w : World T) : nat :=
  size (filter (fun entry => m_IsValue entry.2 = true) (objects w)).

(** What the container found at an address contributes to
    [value_holders]. *)
Definition holder_weight (found : option (StatusOr T)) : nat :=
  match found with
  | Some s => Nat.b2n (m_IsValue s)
  | None => 0
  end.

(** The stored status of a container that reports a value is the one
    [Status::OK()] builds: code OK and an empty message. *)
Definition value_status_is_OK (s : StatusOr T) : Prop :=
  m_IsValue s = true -> m_Status s = Status.OK.

(** The addresses a call names: [this], and [other] where there is
    one. *)
Definition named (c : call T) : list addr :=
  match c with
  | CopyCtor this other | MoveCtor this other
  | CopyAssign this other | MoveAssign this other => [this; other]
  | CtorValue this _ | CtorStatus this _ | CtorInPlace this _
  | Dtor this | CallOk this | CallStatus this | CallBool this
  | ValueConst this | ValueLvalue this | ValueRvalue this
  | DerefConst this | DerefLvalue this | DerefRvalue this
  | ValueOr this _ => [this]
  end.

(** The calls that move out of a container. *)
Definition moves (c : call T) : bool :=
  match c with
  | MoveCtor _ _ | MoveAssign _ _ | ValueRvalue _ => true
  | _ => false
  end.

(** A call is applied as the language requires: a constructor to
    unused storage, everything else to live containers. *)
Definition well_addressed (c : call T) (w : World T) : Prop :=
  match c with
  | CtorValue this _ | CtorStatus this _ | CtorInPlace this _ =>
      objects w !! this = None
  | CopyCtor this other | MoveCtor this other =>
      objects w !! this = None /\ is_Some (objects w !! other)
  | CopyAssign this other | MoveAssign this other =>
      is_Some (objects w !! this) /\ is_Some (objects w !! other)
  | Dtor this | CallOk this | CallStatus this | CallBool this
  | ValueConst this | ValueLvalue this | ValueRvalue this
  | DerefConst this | DerefLvalue this | DerefRvalue this
  | ValueOr this _ =>
      is_Some (objects w !! this)
  end.

(** The container whose value a call accesses behind a check of the
    status: [value()] and [operator*]. *)
Definition value_access (c : call T) : option addr :=
  match c with
  | ValueConst this | ValueLvalue this | ValueRvalue this
  | DerefConst this | DerefLvalue this | DerefRvalue this => Some this
  | _ => None
  end.

End StatusOr_measures.

(** * Properties *)

(** ** Status *)

Lemma Status_ok_iff (s : Status.t) :
  Status.ok s = true <-> Status.code s = StatusCode.OK.
Proof. unfold Status.ok, Status.code. apply N.eqb_eq. Qed.

Lemma Status_OK_ok : Status.ok Status.OK = true.
Proof. reflexivity. Qed.

Lemma Status_non_OK_not_ok (code : StatusCode.t) (msg : string) :
  code <> StatusCode.OK -> Status.ok (Status.Build code msg) = false.
Proof. intros Hne. unfold Status.ok. simpl. by apply N.eqb_neq. Qed.

Lemma StatusCodeToString_beyond (code : StatusCode.t) :
  (StatusCode.DATA_LOSS < code)%N ->
  StatusCodeToString code = Dangling "Unknown".
Proof.
  unfold StatusCode.DATA_LOSS. intros Hlt.
  destruct code as [|p]; [lia|].
  do 4 (try destruct p as [p|p|]); try reflexivity; lia.
Qed.

Lemma StatusCodeToString_dangling (code : StatusCode.t) :
  exists name, StatusCodeToString code = Dangling name.
Proof.
  destruct code as [|p]; [by eexists|].
  do 4 (try destruct p as [p|p|]); by eexists.
Qed.

(** C7, against the code.  The [switch] of the name lookup selects the
    literal of the display-name table for each of the sixteen
    enumerators and ["Unknown"] above the last one, but what the lookup
    returns, for every code, is a reference to the temporary string
    that was destroyed when the function returned: no call yields the
    table string.  [ToString] reads through that reference, so for no
    status does it produce the rendering ["[" name "] " message]; for
    [Status(StatusCode::NOT_FOUND, "missing key")] it does not return
    ["[Not Found] missing key"]. *)
Theorem StatusCodeToString_returns_dangling :
  Forall (fun row => StatusCodeToString row.1 = Dangling row.2)
    display_name_table
  /\ display_name_table.*1 = StatusCode.enumerators
  /\ (forall code : StatusCode.t,
        read_reference (StatusCodeToString code) = Undefined)
  /\ (forall st : Status.t, Status.ToString st = Undefined)
  /\ StatusCodeToString StatusCode.NOT_FOUND = Dangling "Not Found"
  /\ Status.ToString missing_key <> Ret "[Not Found] missing key".
Proof.
  split_and!.
  - unfold display_name_table. repeat constructor.
  - reflexivity.
  - intros code. by destruct (StatusCodeToString_dangling code) as [name ->].
  - intros st. unfold Status.ToString.
    by destruct (StatusCodeToString_dangling (Status.m_Code st)) as [name ->].
  - reflexivity.
  - discriminate.
Qed.

(** ** StatusOr: what every reachable state satisfies *)

Section StatusOr_invariant.

Context {T : Type} `{MT : Movable T} `{MS : Movable string}.

Implicit Types (w : World T) (s o : StatusOr T) (this other : addr).

Lemma bind_Ret {A B : Type} (m : outcome A) (k : A -> outcome B) (b : B) :
  (m ≫= k) = Ret b -> exists a, m = Ret a /\ k a = Ret b.
Proof. destruct m as [a| |]; simpl; [eauto | discriminate | discriminate]. Qed.

Lemma deref_addr_Ret a w s :
  deref_addr a w = Ret s <-> objects w !! a = Some s.
Proof.
  unfold deref_addr. destruct (objects w !! a); split; intros E;
    congruence.
Qed.

Lemma read_storage_Ret s v :
  read_storage s = Ret v <-> m_Storage s = Some v.
Proof.
  unfold read_storage. destruct (m_Storage s); split; intros E; congruence.
Qed.

Lemma consistent_value (st : Status.t) (v : T) :
  Status.ok st = true -> consistent (MkStatusOr st true (Some v)).
Proof. intros Hok _. simpl. eauto. Qed.

Lemma consistent_no_value (st : Status.t) (buf : option T) :
  consistent (MkStatusOr st false buf).
Proof. intros Hflag. discriminate Hflag. Qed.

Lemma world_consistent_empty : world_consistent (@empty_world T).
Proof. apply map_Forall_empty. Qed.

Lemma world_consistent_store a s w :
  consistent s -> world_consistent w -> world_consistent (store a s w).
Proof. intros Hs Hw. by apply map_Forall_insert_2. Qed.

Lemma world_consistent_release a w :
  world_consistent w -> world_consistent (release a w).
Proof. intros Hw. by apply map_Forall_delete. Qed.

Lemma world_consistent_count_ctor w :
  world_consistent w -> world_consistent (count_ctor w).
Proof. intros Hw. exact Hw. Qed.

Lemma world_consistent_count_dtor w :
  world_consistent w -> world_consistent (count_dtor w).
Proof. intros Hw. exact Hw. Qed.

Lemma world_consistent_lookup w a s :
  world_consistent w -> objects w !! a = Some s -> consistent s.
Proof. intros Hw Ha. exact (Hw a s Ha). Qed.

Create HintDb consistency.

#[local] Hint Resolve consistent_value consistent_no_value
  world_consistent_store world_consistent_release
  world_consistent_count_ctor
  world_consistent_count_dtor Status_OK_ok : consistency.

(** Decompose the hypotheses saying that a sequence of steps returned. *)
Ltac returned :=
  repeat match goal with
  | H : (_ ≫= _) = Ret _ |- _ =>
      let x := fresh "x" in
      let Hx := fresh "Hx" in
      apply bind_Ret in H as (x & Hx & H)
  | H : (if ?b then _ else _) = Ret _ |- _ => destruct b eqn:?
  | H : (let '(_, _) := ?p in _) = Ret _ |- _ => destruct p eqn:?
  | H : Ret _ = Ret _ |- _ => injection H as H
  | H : Fatal = Ret _ |- _ => discriminate H
  | H : Undefined = Ret _ |- _ => discriminate H
  end.

Lemma Status_move_code (st mine residue : Status.t) :
  Status_move st = (mine, residue) ->
  mine = st /\ Status.ok residue = Status.ok st.
Proof. unfold Status_move. intros [= <- <-]. done. Qed.

Lemma exec_consistent c w w' :
  world_consistent w -> exec c w = Ret w' -> world_consistent w'.
Proof.
  intros Hw Hexec.
  destruct c; simpl in Hexec;
    unfold observe, ctor_value, ctor_status, ctor_in_place, copy_ctor,
      move_ctor, copy_assign, move_assign, dtor, value_rvalue,
      deref_rvalue in Hexec.
  all: returned.
  all: repeat match goal with
       | H : deref_addr _ _ = Ret _ |- _ =>
           apply deref_addr_Ret in H;
           pose proof (world_consistent_lookup _ _ _ Hw H)
       | H : read_storage _ = Ret _ |- _ => apply read_storage_Ret in H
       | H : Status_move _ = _ |- _ => apply Status_move_code in H as [-> ?]
       | H : consistent ?s, E : m_IsValue ?s = true |- _ =>
           destruct (H E) as [? _]; clear H
       end.
  all: subst; eauto 8 with consistency.
Qed.

Lemma reachable_consistent w : reachable w -> world_consistent w.
Proof.
  induction 1 as [|w c w' _ IH Hexec].
  - apply world_consistent_empty.
  - exact (exec_consistent c w w' IH Hexec).
Qed.

Lemma run_reachable (cs : list (call T)) w w' :
  reachable w -> run cs w = Ret w' -> reachable w'.
Proof.
  revert w. induction cs as [|c cs IH]; intros w Hw Hrun; simpl in Hrun.
  - injection Hrun as <-. exact Hw.
  - apply bind_Ret in Hrun as (w1 & Hc & Hrun).
    apply (IH w1); [|exact Hrun]. exact (reachable_exec w c w1 Hw Hc).
Qed.

(** A container that reports a value has an OK status and a payload
    in its storage. *)
Lemma reachable_value_held w a s :
  reachable w -> objects w !! a = Some s -> ok s = true ->
  Status.ok (m_Status s) = true /\ exists v, m_Storage s = Some v.
Proof.
  intros Hw Ha Hok.
  destruct (world_consistent_lookup w a s (reachable_consistent w Hw) Ha Hok)
    as [Hst [v Hv]].
  eauto.
Qed.

Lemma lookup_store_eq a s w : objects (store a s w) !! a = Some s.
Proof. apply lookup_insert_eq. Qed.

Lemma lookup_store_ne a b s w :
  a <> b -> objects (store a s w) !! b = objects w !! b.
Proof. intros Hne. by apply lookup_insert_ne. Qed.

Lemma lookup_release_ne a b w :
  a <> b -> objects (release a w) !! b = objects w !! b.
Proof. intros Hne. by apply lookup_delete_ne. Qed.

(** The destructor of a container that reports no value runs no
    destructor of [T]. *)
Lemma dtor_no_value a w s :
  objects w !! a = Some s -> ok s = false -> dtor a w = Ret (release a w).
Proof.
  intros Ha Hok. unfold dtor, deref_addr. rewrite Ha. simpl.
  unfold ok in Hok. rewrite Hok. reflexivity.
Qed.

Lemma value_const_checked s (v : T) :
  Status.ok (m_Status s) = true -> m_Storage s = Some v ->
  value_const s = Ret v.
Proof.
  intros Hst Hv. unfold value_const, read_storage. rewrite Hst, Hv.
  reflexivity.
Qed.

Lemma value_const_Fatal s :
  value_const s = Fatal <-> Status.ok (status s) = false.
Proof.
  unfold value_const, read_storage, status.
  destruct (Status.ok (m_Status s)); simpl;
    [destruct (m_Storage s)|]; split; congruence.
Qed.

Lemma value_rvalue_checked a w s (v : T) :
  objects w !! a = Some s ->
  Status.ok (m_Status s) = true -> m_Storage s = Some v ->
  value_rvalue a w
  = Ret (v, store a (MkStatusOr (m_Status s) false (Some (moved_from v))) w).
Proof.
  intros Ha Hst Hv. unfold value_rvalue, deref_addr, read_storage.
  rewrite Ha. simpl. rewrite Hst, Hv. reflexivity.
Qed.

Lemma value_rvalue_Fatal a w s :
  objects w !! a = Some s ->
  value_rvalue a w = Fatal <-> Status.ok (status s) = false.
Proof.
  intros Ha. unfold value_rvalue, deref_addr, read_storage, status.
  rewrite Ha. simpl.
  destruct (Status.ok (m_Status s)); simpl;
    [destruct (m_Storage s)|]; simpl; split; congruence.
Qed.

(** C1, as the code has it.  In every reachable state a container never
    holds both a constructed [T] and a non-OK status: when it reports a
    value its status is OK and a [T] lives in its storage, and when its
    status is not OK it reports no value.  It can hold neither of the
    two (no value and an OK status), which is the only way in which
    "exactly one" fails. *)
Theorem reachable_never_both w a s :
  reachable w -> objects w !! a = Some s ->
  (value_live s = true -> error_live s = false /\ is_Some (m_Storage s))
  /\ (error_live s = true -> value_live s = false)
  /\ (exactly_one_live s \/ (value_live s = false /\ error_live s = false)).
Proof.
  intros Hw Ha.
  pose proof (reachable_value_held w a s Hw Ha) as Hheld.
  unfold exactly_one_live, value_live, error_live, ok in *.
  destruct (m_IsValue s) eqn:Hflag.
  - destruct (Hheld eq_refl) as [-> [v ->]]. simpl. eauto 6.
  - clear Hheld. destruct (Status.ok (m_Status s)); simpl;
      repeat split; auto; discriminate.
Qed.

(** C2, as the code has it.  When [ok()] holds, each overload of
    [value()] returns the held value; the fatal check of each overload
    fires exactly when the stored status is not OK, whatever [ok()]
    says. *)
Theorem value_checks_status w a s :
  reachable w -> objects w !! a = Some s ->
  (ok s = true ->
     exists v, m_Storage s = Some v
       /\ value_const s = Ret v
       /\ value_lvalue s = Ret v
       /\ exists w', value_rvalue a w = Ret (v, w'))
  /\ (value_const s = Fatal <-> Status.ok (status s) = false)
  /\ (value_lvalue s = Fatal <-> Status.ok (status s) = false)
  /\ (value_rvalue a w = Fatal <-> Status.ok (status s) = false).
Proof.
  intros Hw Ha. split; [|split; [|split]].
  - intros Hok.
    destruct (reachable_value_held w a s Hw Ha Hok) as [Hst [v Hv]].
    exists v. split; [exact Hv|].
    split; [by apply value_const_checked|].
    split; [by apply value_const_checked|].
    eexists. by apply value_rvalue_checked.
  - apply value_const_Fatal.
  - apply value_const_Fatal.
  - by apply value_rvalue_Fatal.
Qed.

(** ** StatusOr: assignment, moves and the remaining accessors *)

(** C3. Copy-assigning a source that reports no value over a target
    that holds one runs the destructor of [T] once, constructs nothing,
    and leaves the target with [ok() == false] and the status of the
    source; copy-assigning a source that holds a value over a target
    that reports none constructs one [T], a copy of the value of the
    source, destructs nothing, and leaves the target with
    [ok() == true]. *)
Theorem copy_assign_cross_quadrants w this other s o :
  reachable w ->
  objects w !! this = Some s -> objects w !! other = Some o ->
  (ok o = false -> ok s = true ->
     exists w' s',
       copy_assign this other w = Ret w'
       /\ objects w' !! this = Some s'
       /\ dtor_calls w' = S (dtor_calls w)
       /\ ctor_calls w' = ctor_calls w
       /\ m_Storage s' = None
       /\ ok s' = false
       /\ status s' = status o)
  /\ (ok o = true -> ok s = false ->
     exists w' s' v,
       copy_assign this other w = Ret w'
       /\ objects w' !! this = Some s'
       /\ m_Storage o = Some v
       /\ ctor_calls w' = S (ctor_calls w)
       /\ dtor_calls w' = dtor_calls w
       /\ m_Storage s' = Some v
       /\ ok s' = true
       /\ objects w' !! other = Some o).
Proof.
  intros Hw Hs Ho. split; intros Hoko Hoks.
  - assert (this <> other) as Hne by (intros ->; congruence).
    destruct (reachable_value_held w this s Hw Hs Hoks) as [_ [v Hv]].
    unfold ok in *.
    exists (count_dtor (store this (MkStatusOr (m_Status o) false None) w)).
    eexists. split; [|split; [apply lookup_store_eq|]]; [|done].
    unfold copy_assign, deref_addr, read_storage.
    destruct (decide (this = other)) as [|_]; [done|].
    rewrite Hs, Ho. simpl. rewrite Hoko, Hoks, Hv. reflexivity.
  - assert (this <> other) as Hne by (intros ->; congruence).
    destruct (reachable_value_held w other o Hw Ho Hoko) as [_ [v Hv]].
    unfold ok in *.
    exists (count_ctor (store this (MkStatusOr (m_Status o) true (Some v)) w)).
    eexists. exists v.
    split; [|split; [apply lookup_store_eq|]].
    + unfold copy_assign, deref_addr, read_storage.
      destruct (decide (this = other)) as [|_]; [done|].
      rewrite Hs, Ho. simpl. rewrite Hoko, Hoks, Hv. reflexivity.
    + repeat split; try done. simpl. by rewrite lookup_insert_ne.
Qed.

Lemma skips_payload_of_no_value a w s :
  objects w !! a = Some s -> ok s = false -> destructor_skips_payload a w.
Proof.
  intros Ha Hok. exists (release a w).
  split; [by apply (dtor_no_value a w s)|].
  repeat split. intros b Hne. by apply lookup_release_ne.
Qed.

(** C4, as the code has it.  Moving from a container that holds a
    value [v], by move construction, as the source of a move assignment
    or through the rvalue overload of [value()], leaves the source with
    [ok() == false] and gives [v] to the target; the destructor of the
    source then runs no destructor of [T] and leaves the target as it
    is.  The payload object that is still constructed in the storage of
    the source is never destructed by the container. *)
Theorem move_leaves_no_value w other o :
  reachable w -> objects w !! other = Some o -> ok o = true ->
  exists v, m_Storage o = Some v
  /\ (forall this, this <> other ->
        exists w1 o' s',
          move_ctor this other w = Ret w1
          /\ objects w1 !! other = Some o' /\ ok o' = false
          /\ is_Some (m_Storage o')
          /\ objects w1 !! this = Some s'
          /\ ok s' = true /\ m_Storage s' = Some v
          /\ destructor_skips_payload other w1)
  /\ (forall this s, this <> other -> objects w !! this = Some s ->
        exists w1 o' s',
          move_assign this other w = Ret w1
          /\ objects w1 !! other = Some o' /\ ok o' = false
          /\ is_Some (m_Storage o')
          /\ objects w1 !! this = Some s'
          /\ ok s' = true /\ m_Storage s' = Some v
          /\ destructor_skips_payload other w1)
  /\ (exists w1 o',
        value_rvalue other w = Ret (v, w1)
        /\ objects w1 !! other = Some o' /\ ok o' = false
        /\ is_Some (m_Storage o')
        /\ destructor_skips_payload other w1).
Proof.
  intros Hw Ho Hoko.
  destruct (reachable_value_held w other o Hw Ho Hoko) as [Hst [v Hv]].
  exists v. split; [exact Hv|]. split; [|split].
  - intros this Hne.
    eexists _, _, _. split.
    { unfold move_ctor, deref_addr, read_storage.
      unfold ok in Hoko. rewrite Ho. simpl. rewrite Hoko, Hv. reflexivity. }
    split; [apply lookup_store_eq|]. split; [done|].
    split; [simpl; by eexists|].
    split; [rewrite lookup_store_ne by done; apply lookup_store_eq|].
    split; [done|]. split; [done|].
    eapply skips_payload_of_no_value; [apply lookup_store_eq|done].
  - intros this s Hne Hs.
    unfold move_assign, deref_addr, read_storage.
    destruct (decide (this = other)) as [|_]; [done|].
    unfold ok in Hoko. rewrite Hs, Ho. simpl. rewrite Hoko, Hv.
    destruct (m_IsValue s) eqn:Hflag.
    + destruct (reachable_value_held w this s Hw Hs Hflag) as [_ [u Hu]].
      rewrite Hu. simpl.
      eexists _, _, _. split; [reflexivity|].
      split; [apply lookup_store_eq|]. split; [done|].
      split; [done|].
      split; [rewrite lookup_store_ne by done; apply lookup_store_eq|].
      split; [done|]. split; [done|].
      eapply skips_payload_of_no_value; [apply lookup_store_eq|done].
    + simpl.
      eexists _, _, _. split; [reflexivity|].
      split; [apply lookup_store_eq|]. split; [done|].
      split; [done|].
      split; [rewrite lookup_store_ne by done; apply lookup_store_eq|].
      split; [done|]. split; [done|].
      eapply skips_payload_of_no_value; [apply lookup_store_eq|done].
  - eexists _, _. split; [by apply value_rvalue_checked|].
    split; [apply lookup_store_eq|]. split; [done|]. split; [done|].
    eapply skips_payload_of_no_value; [apply lookup_store_eq|done].
Qed.

(** C5. The constructor from a [Status] ends in the fatal check when
    the status is OK; for a status that is not OK it returns a
    container with [ok() == false] whose [status()] is the status it
    was given. *)
Theorem ctor_status_contract this (st : Status.t) w :
  (Status.ok st = true -> ctor_status this st w = Fatal)
  /\ (Status.ok st = false ->
      exists w' s,
        ctor_status this st w = Ret w'
        /\ objects w' !! this = Some s
        /\ ok s = false
        /\ status s = st).
Proof.
  unfold ctor_status, Status_move, Status.ok. simpl.
  split; intros ->; simpl; [reflexivity|].
  eexists _, _. split; [reflexivity|].
  split; [apply lookup_store_eq|]. done.
Qed.

(** C6. A container constructed from a value [v] gives [v] back from
    every overload of [value()], and both [ok()] and [status().ok()]
    are true. *)
Theorem ctor_value_round_trip this (v : T) w :
  exists w' s,
    ctor_value this v w = Ret w'
    /\ objects w' !! this = Some s
    /\ value_const s = Ret v
    /\ value_lvalue s = Ret v
    /\ (exists w'', value_rvalue this w' = Ret (v, w''))
    /\ ok s = true
    /\ Status.ok (status s) = true.
Proof.
  eexists _, _. split; [reflexivity|].
  split; [apply lookup_store_eq|].
  repeat split.
  eexists. unfold value_rvalue, deref_addr. simpl.
  rewrite lookup_insert_eq. reflexivity.
Qed.

(** C8, as the code has it.  The const and lvalue overloads of
    [operator*] behave as the overloads of [value()] of the same
    qualification: the same check, the same object.  The rvalue
    overload of [operator*] fires the fatal check exactly when the
    rvalue overload of [value()] does, that is when the stored status
    is not OK, and under [ok()] it yields the same held value; but it
    writes nothing: the state after the call is the state before it, in
    which [ok()] is true, where [value()] clears the flag. *)
Theorem deref_mirrors_value w a s :
  reachable w -> objects w !! a = Some s ->
  deref_const s = value_const s
  /\ deref_lvalue s = value_lvalue s
  /\ (deref_const s = Fatal <-> Status.ok (status s) = false)
  /\ (deref_lvalue s = Fatal <-> Status.ok (status s) = false)
  /\ (deref_rvalue a w = Fatal <-> value_rvalue a w = Fatal)
  /\ (deref_rvalue a w = Fatal <-> Status.ok (status s) = false)
  /\ (ok s = true ->
      exists v w1 s1,
        m_Storage s = Some v
        /\ value_rvalue a w = Ret (v, w1)
        /\ objects w1 !! a = Some s1 /\ ok s1 = false
        /\ deref_rvalue a w = Ret (v, w)).
Proof.
  intros Hw Ha. repeat (split; [reflexivity|]).
  split; [apply value_const_Fatal|]. split; [apply value_const_Fatal|].
  assert (deref_rvalue a w = Fatal <-> Status.ok (status s) = false) as Hd.
  { unfold deref_rvalue, value_lvalue, deref_addr, read_storage, status.
    rewrite Ha. simpl.
    destruct (Status.ok (m_Status s)); simpl;
      [destruct (m_Storage s)|]; simpl; split; congruence. }
  split; [by rewrite (value_rvalue_Fatal a w s Ha)|].
  split; [exact Hd|].
  intros Hok.
  destruct (reachable_value_held w a s Hw Ha Hok) as [Hst [v Hv]].
  eexists v, _, _. split; [exact Hv|].
  split; [by apply value_rvalue_checked|].
  split; [apply lookup_store_eq|]. split; [done|].
  unfold deref_rvalue, value_lvalue, deref_addr, read_storage.
  rewrite Ha. simpl. rewrite Hst. simpl. rewrite Hv. reflexivity.
Qed.

(** C9. On every reachable container [value_or(d)] returns the held
    value when [ok()] is true and [d] when it is false, and it never
    ends in the fatal check. *)
Theorem value_or_total w a s (d : T) :
  reachable w -> objects w !! a = Some s ->
  (ok s = true -> exists v, m_Storage s = Some v /\ value_or s d = Ret v)
  /\ (ok s = false -> value_or s d = Ret d)
  /\ value_or s d <> Fatal.
Proof.
  intros Hw Ha. unfold value_or.
  destruct (ok s) eqn:Hok.
  - destruct (reachable_value_held w a s Hw Ha Hok) as [Hst [v Hv]].
    rewrite (value_const_checked s v Hst Hv).
    split; [eauto|]. split; [discriminate|]. discriminate.
  - split; [discriminate|]. split; [reflexivity|]. discriminate.
Qed.

(** C10. After the payload of a value-holding container has been moved
    out through the rvalue overload of [value()], or after the
    container has been the source of a move construction, [ok()] is
    false and [status().ok()] is true. *)
Theorem moved_from_reports_ok_status w other o :
  reachable w -> objects w !! other = Some o -> ok o = true ->
  (exists v w1 o',
     value_rvalue other w = Ret (v, w1)
     /\ objects w1 !! other = Some o'
     /\ ok o' = false
     /\ Status.ok (status o') = true)
  /\ (forall this,
        exists w1 o',
          move_ctor this other w = Ret w1
          /\ objects w1 !! other = Some o'
          /\ ok o' = false
          /\ Status.ok (status o') = true).
Proof.
  intros Hw Ho Hoko.
  destruct (reachable_value_held w other o Hw Ho Hoko) as [Hst [v Hv]].
  split.
  - eexists v, _, _. split; [by apply value_rvalue_checked|].
    split; [apply lookup_store_eq|]. done.
  - intros this. eexists _, _. split.
    { unfold move_ctor, deref_addr, read_storage.
      unfold ok in Hoko. rewrite Ho. simpl. rewrite Hoko, Hv. reflexivity. }
    split; [apply lookup_store_eq|]. done.
Qed.

End StatusOr_invariant.

(** ** StatusOr<int>: concrete runs *)

Section StatusOr_int.

#[local] Existing Instances Movable_int Movable_std_string.

Lemma move_program_runs : run move_program empty_world = Ret move_world.
Proof. vm_compute. reflexivity. Qed.

Lemma both_program_runs : run both_program empty_world = Ret both_world.
Proof. vm_compute. reflexivity. Qed.

Lemma move_world_reachable : reachable move_world.
Proof.
  apply (run_reachable move_program empty_world);
    [apply reachable_start | apply move_program_runs].
Qed.

Lemma both_world_reachable : reachable both_world.
Proof.
  apply (run_reachable both_program empty_world);
    [apply reachable_start | apply both_program_runs].
Qed.

Lemma move_world_source :
  objects move_world !! 0%nat = Some moved_42.
Proof. reflexivity. Qed.

Lemma both_world_value :
  objects both_world !! 0%nat = Some holds_42.
Proof. reflexivity. Qed.

Lemma both_world_error :
  objects both_world !! 1%nat = Some holds_missing_key.
Proof. reflexivity. Qed.

Lemma copy_of_moved_program_runs :
  run copy_of_moved_program empty_world = Ret copy_of_moved_world.
Proof. vm_compute. reflexivity. Qed.

(** C1 as stated fails: after [a(42); c(std::move(a)); d(a);] the
    container [d] is reachable and holds neither of the two: it reports
    no value, no [T] was ever constructed in its storage, and its status
    is OK.  (The moved-from [a] reports no value with an OK status as
    well.) *)
Lemma exactly_one_live_fails :
  reachable copy_of_moved_world
  /\ objects copy_of_moved_world !! 2%nat = Some holds_nothing
  /\ value_live holds_nothing = false
  /\ m_Storage holds_nothing = None
  /\ error_live holds_nothing = false
  /\ ~ exactly_one_live holds_nothing.
Proof.
  split.
  { apply (run_reachable copy_of_moved_program empty_world);
      [apply reachable_start | apply copy_of_moved_program_runs]. }
  repeat (split; [reflexivity|]).
  unfold exactly_one_live. vm_compute. discriminate.
Qed.

Lemma reachable_never_both_witness :
  reachable move_world
  /\ objects move_world !! 0%nat
     = Some moved_42
  /\ value_live moved_42 = false
  /\ error_live moved_42 = false.
Proof.
  split; [exact move_world_reachable|].
  split; [exact move_world_source|].
  destruct (reachable_never_both move_world 0%nat _ move_world_reachable
              move_world_source) as (_ & _ & [Hone | Hnone]).
  - vm_compute in Hone. discriminate Hone.
  - exact Hnone.
Defined.

(** C2 as stated fails: after [a(42); c(std::move(a));] the container
    [a] reports [ok() == false], and [value()] on it passes the check and
    returns instead of ending in the fatal check. *)
Lemma value_check_passes_without_value :
  reachable move_world
  /\ objects move_world !! 0%nat = Some moved_42
  /\ ok moved_42 = false
  /\ value_const moved_42 = Ret 42%Z
  /\ ~ (value_const moved_42 = Fatal <-> ok moved_42 = false).
Proof.
  split; [exact move_world_reachable|].
  repeat (split; [reflexivity|]).
  intros [_ Hfires]. specialize (Hfires eq_refl).
  vm_compute in Hfires. discriminate Hfires.
Qed.

Lemma value_checks_status_witness :
  reachable both_world
  /\ ok holds_42 = true
  /\ value_const holds_42 = Ret 42%Z
  /\ value_const holds_missing_key = Fatal.
Proof.
  split; [exact both_world_reachable|]. split; [reflexivity|].
  split.
  - destruct (value_checks_status both_world 0%nat _ both_world_reachable
                both_world_value) as (Hheld & _).
    destruct (Hheld eq_refl) as (v & Hv & Hc & _).
    injection Hv as <-. exact Hc.
  - destruct (value_checks_status both_world 1%nat _ both_world_reachable
                both_world_error) as (_ & [_ Hfires] & _).
    apply Hfires. reflexivity.
Defined.

Lemma copy_assign_cross_quadrants_witness :
  (exists w' s',
     copy_assign 0%nat 1%nat both_world = Ret w'
     /\ objects w' !! 0%nat = Some s'
     /\ dtor_calls w' = 1 /\ ctor_calls w' = 1
     /\ ok s' = false /\ status s' = missing_key)
  /\ (exists w' s',
     copy_assign 1%nat 0%nat both_world = Ret w'
     /\ objects w' !! 1%nat = Some s'
     /\ ctor_calls w' = 2 /\ dtor_calls w' = 0
     /\ m_Storage s' = Some 42%Z /\ ok s' = true).
Proof.
  split.
  - destruct (copy_assign_cross_quadrants both_world 0%nat 1%nat _ _
                both_world_reachable both_world_value both_world_error)
      as [Hover _].
    destruct (Hover eq_refl eq_refl)
      as (w' & s' & Hrun & Hs' & Hd & Hc & _ & Hok & Hst).
    exists w', s'. repeat split; assumption.
  - destruct (copy_assign_cross_quadrants both_world 1%nat 0%nat _ _
                both_world_reachable both_world_error both_world_value)
      as [_ Hover].
    destruct (Hover eq_refl eq_refl)
      as (w' & s' & v & Hrun & Hs' & Hv & Hc & Hd & Hsv & Hok & _).
    injection Hv as <-.
    exists w', s'. repeat split; assumption.
Defined.

(** C4 as stated fails: [a(42)] and [c(std::move(a))] construct two
    payload objects; when both containers have been destroyed only one
    of the two has been destructed. *)
Lemma moved_from_payload_never_destructed :
  exists w : World Z,
    run move_and_destroy_program empty_world = Ret w
    /\ objects w = ∅
    /\ ctor_calls w = 2
    /\ dtor_calls w = 1
    /\ live_instances w <> 0%Z.
Proof.
  exists (MkWorld ∅ 2 1).
  split; [vm_compute; reflexivity|].
  repeat split. vm_compute. discriminate.
Qed.

Lemma move_leaves_no_value_witness :
  reachable both_world
  /\ ok holds_42 = true
  /\ (exists w1 o' s',
        move_ctor 2%nat 0%nat both_world = Ret w1
        /\ objects w1 !! 0%nat = Some o' /\ ok o' = false
        /\ objects w1 !! 2%nat = Some s' /\ m_Storage s' = Some 42%Z
        /\ destructor_skips_payload 0%nat w1)
  /\ (exists w1 o' s',
        move_assign 1%nat 0%nat both_world = Ret w1
        /\ objects w1 !! 0%nat = Some o' /\ ok o' = false
        /\ objects w1 !! 1%nat = Some s' /\ m_Storage s' = Some 42%Z
        /\ destructor_skips_payload 0%nat w1).
Proof.
  split; [exact both_world_reachable|]. split; [reflexivity|].
  destruct (move_leaves_no_value both_world 0%nat holds_42
              both_world_reachable both_world_value eq_refl)
    as (v & Hv & Hctor & Hassign & _).
  injection Hv as <-. split.
  - destruct (Hctor 2%nat ltac:(discriminate))
      as (w1 & o' & s' & Hrun & Ho' & Hok & _ & Hs' & _ & Hsv & Hskip).
    exists w1, o', s'. repeat split; assumption.
  - destruct (Hassign 1%nat holds_missing_key ltac:(discriminate)
                both_world_error)
      as (w1 & o' & s' & Hrun & Ho' & Hok & _ & Hs' & _ & Hsv & Hskip).
    exists w1, o', s'. repeat split; assumption.
Defined.

Lemma ctor_status_contract_witness :
  Status.ok Status.OK = true
  /\ ctor_status 0%nat Status.OK (@empty_world Z) = Fatal
  /\ Status.ok missing_key = false
  /\ (exists w' s,
        ctor_status 0%nat missing_key (@empty_world Z) = Ret w'
        /\ objects w' !! 0%nat = Some s
        /\ ok s = false
        /\ status s = missing_key).
Proof.
  split; [reflexivity|]. split.
  - apply (ctor_status_contract 0%nat Status.OK empty_world). reflexivity.
  - split; [reflexivity|].
    apply (ctor_status_contract 0%nat missing_key empty_world). reflexivity.
Defined.

(** C8 as stated fails: on [a(42)] the rvalue overload of [operator*]
    returns 42 and leaves the state as it was, so [a] still holds 42
    with [ok() == true]; the rvalue overload of [value()] on the same
    state clears the flag. *)
Lemma deref_rvalue_keeps_value :
  reachable both_world
  /\ objects both_world !! 0%nat = Some holds_42
  /\ ok holds_42 = true
  /\ deref_rvalue 0%nat both_world = Ret (42%Z, both_world)
  /\ value_rvalue 0%nat both_world
     = Ret (42%Z, store 0%nat moved_42 both_world)
  /\ ~ (exists v w' s',
         deref_rvalue 0%nat both_world = Ret (v, w')
         /\ objects w' !! 0%nat = Some s' /\ ok s' = false).
Proof.
  split; [exact both_world_reachable|].
  repeat (split; [reflexivity|]).
  intros (v & w' & s' & Hrun & Hs' & Hok).
  vm_compute in Hrun. injection Hrun as _ <-.
  vm_compute in Hs'. injection Hs' as <-.
  discriminate Hok.
Qed.

Lemma deref_mirrors_value_witness :
  reachable both_world
  /\ ok holds_42 = true
  /\ (exists w1 s1,
        value_rvalue 0%nat both_world = Ret (42%Z, w1)
        /\ objects w1 !! 0%nat = Some s1 /\ ok s1 = false)
  /\ deref_rvalue 0%nat both_world = Ret (42%Z, both_world).
Proof.
  split; [exact both_world_reachable|]. split; [reflexivity|].
  destruct (deref_mirrors_value both_world 0%nat holds_42
              both_world_reachable both_world_value)
    as (_ & _ & _ & _ & _ & _ & Hheld).
  destruct (Hheld eq_refl) as (v & w1 & s1 & Hv & Hval & Hs1 & Hok & Hd).
  injection Hv as <-.
  split; [exists w1, s1; repeat split; assumption | exact Hd].
Defined.

Lemma value_or_total_witness :
  reachable both_world
  /\ ok holds_42 = true
  /\ value_or holds_42 7%Z = Ret 42%Z
  /\ ok holds_missing_key = false
  /\ value_or holds_missing_key 7%Z = Ret 7%Z.
Proof.
  split; [exact both_world_reachable|]. split; [reflexivity|].
  split.
  - destruct (value_or_total both_world 0%nat holds_42 7%Z
                both_world_reachable both_world_value) as (Hheld & _).
    destruct (Hheld eq_refl) as (v & Hv & Hor).
    injection Hv as <-. exact Hor.
  - split; [reflexivity|].
    destruct (value_or_total both_world 1%nat holds_missing_key 7%Z
                both_world_reachable both_world_error) as (_ & Hdefault & _).
    exact (Hdefault eq_refl).
Defined.

Lemma moved_from_reports_ok_status_witness :
  reachable both_world
  /\ ok holds_42 = true
  /\ (exists v w1 o',
        value_rvalue 0%nat both_world = Ret (v, w1)
        /\ objects w1 !! 0%nat = Some o'
        /\ ok o' = false
        /\ Status.ok (status o') = true)
  /\ (exists w1 o',
        move_ctor 2%nat 0%nat both_world = Ret w1
        /\ objects w1 !! 0%nat = Some o'
        /\ ok o' = false
        /\ Status.ok (status o') = true).
Proof.
  split; [exact both_world_reachable|]. split; [reflexivity|].
  destruct (moved_from_reports_ok_status both_world 0%nat holds_42
              both_world_reachable both_world_value eq_refl)
    as [Hvalue Hctor].
  split; [exact Hvalue | exact (Hctor 2%nat)].
Defined.

End StatusOr_int.

(** ** StatusOr: copies, moves, assignment and destruction in full *)

Section StatusOr_lifecycle.

Context {T : Type} `{MT : Movable T} `{MS : Movable string}.

Implicit Types (w : World T) (s o : StatusOr T) (this other : addr).

(** Split the hypotheses saying that a sequence of steps returned. *)
Ltac split_returns :=
  repeat match goal with
  | H : (_ ≫= _) = Ret _ |- _ =>
      let x := fresh "x" in
      let Hx := fresh "Hx" in
      apply bind_Ret in H as (x & Hx & H)
  | H : (if ?b then _ else _) = Ret _ |- _ => destruct b eqn:?
  | H : (let '(_, _) := ?p in _) = Ret _ |- _ => destruct p eqn:?
  | H : Ret _ = Ret _ |- _ => injection H as H
  | H : Fatal = Ret _ |- _ => discriminate H
  | H : Undefined = Ret _ |- _ => discriminate H
  | H : deref_addr _ _ = Ret _ |- _ => apply deref_addr_Ret in H
  | H : read_storage _ = Ret _ |- _ => apply read_storage_Ret in H
  | H : Status_move _ = _ |- _ => apply Status_move_code in H as [-> ?]
  end.

Ltac unfold_calls H :=
  unfold observe, ctor_value, ctor_status, ctor_in_place, copy_ctor,
    move_ctor, copy_assign, move_assign, dtor, value_rvalue,
    deref_rvalue in H.

Lemma value_status_store a s w :
  value_status_is_OK s ->
  map_Forall (fun _ s => value_status_is_OK s) (objects w) ->
  map_Forall (fun _ s => value_status_is_OK s) (objects (store a s w)).
Proof. intros Hs Hw. by apply map_Forall_insert_2. Qed.

Lemma value_status_release a w :
  map_Forall (fun _ s => value_status_is_OK s) (objects w) ->
  map_Forall (fun _ s => value_status_is_OK s) (objects (release a w)).
Proof. intros Hw. by apply map_Forall_delete. Qed.

Lemma value_status_count_ctor w :
  map_Forall (fun _ s => value_status_is_OK s) (objects w) ->
  map_Forall (fun _ s => value_status_is_OK s) (objects (count_ctor w)).
Proof. intros Hw. exact Hw. Qed.

Lemma value_status_count_dtor w :
  map_Forall (fun _ s => value_status_is_OK s) (objects w) ->
  map_Forall (fun _ s => value_status_is_OK s) (objects (count_dtor w)).
Proof. intros Hw. exact Hw. Qed.

Lemma value_status_no_value (st : Status.t) (buf : option T) :
  value_status_is_OK (MkStatusOr st false buf).
Proof. intros Hflag. discriminate Hflag. Qed.

Lemma value_status_OK (buf : option T) :
  value_status_is_OK (MkStatusOr Status.OK true buf).
Proof. intros _. reflexivity. Qed.

Lemma exec_value_status c w w' :
  map_Forall (fun _ s => value_status_is_OK s) (objects w) ->
  exec c w = Ret w' ->
  map_Forall (fun _ s => value_status_is_OK s) (objects w').
Proof.
  intros Hw Hexec.
  destruct c; simpl in Hexec; unfold_calls Hexec.
  all: split_returns.
  all: repeat match goal with
       | Hall : map_Forall _ (objects ?w0),
         H : objects ?w0 !! ?a = Some ?s, E : m_IsValue ?s = true |- _ =>
           rewrite (Hall a s H E) in *; clear E
       end.
  all: subst;
    eauto 8 using value_status_store, value_status_release,
      value_status_count_ctor, value_status_count_dtor,
      value_status_no_value, value_status_OK.
Qed.

Lemma reachable_value_status w :
  reachable w -> map_Forall (fun _ s => value_status_is_OK s) (objects w).
Proof.
  induction 1 as [|w c w' _ IH Hexec].
  - apply map_Forall_empty.
  - exact (exec_value_status c w w' IH Hexec).
Qed.

(** What is known of a reachable container that reports a value. *)
Lemma reachable_value_state w a s :
  reachable w -> objects w !! a = Some s -> ok s = true ->
  exists v, s = MkStatusOr Status.OK true (Some v).
Proof.
  intros Hw Ha Hok.
  pose proof (reachable_value_status w Hw a s Ha Hok) as Hst.
  destruct (reachable_value_held w a s Hw Ha Hok) as [_ [v Hv]].
  exists v. destruct s as [st flag buf]. unfold ok in Hok. simpl in *.
  by subst.
Qed.

(** The status stored beside a value is always the one [Status::OK()]
    builds: in every reachable state a container that reports a value
    has a status with code OK and an empty message. *)
Theorem reachable_value_status_is_OK w a s :
  reachable w -> objects w !! a = Some s -> ok s = true ->
  status s = Status.OK
  /\ Status.code (status s) = StatusCode.OK
  /\ Status.message (status s) = "".
Proof.
  intros Hw Ha Hok.
  destruct (reachable_value_state w a s Hw Ha Hok) as [v ->].
  repeat split.
Qed.

(** Expose the fields of an updated state. *)
Ltac fields :=
  unfold ok, status, store, count_ctor, count_dtor, release in *;
  cbn [objects ctor_calls dtor_calls m_Status m_IsValue m_Storage] in *;
  repeat match goal with
  | H : m_IsValue ?x = _ |- context [m_IsValue ?x] => rewrite H
  end;
  cbn [Nat.b2n andb negb].

(** Close a goal about the objects of an updated state. *)
Ltac objects_done :=
  fields; repeat first
    [ rewrite lookup_insert_eq
    | rewrite lookup_insert_ne by congruence
    | rewrite lookup_delete_eq
    | rewrite lookup_delete_ne by congruence ];
  try done.

(** Close the conjuncts describing the state a call returned. *)
Ltac returned_state :=
  split; [reflexivity|];
  split_and!; intros;
    first [ by fields | fields; lia | fields; congruence | objects_done ].

(** The copy constructor returns on every live source and builds a
    container with the [ok()], the [status()] and, if there is one, the
    value of the source.  It constructs one [T] exactly when the source
    holds a value, destructs nothing, and changes no other container,
    the source included. *)
Theorem copy_ctor_copies w this other o :
  reachable w -> objects w !! other = Some o -> this <> other ->
  exists w' s',
    copy_ctor this other w = Ret w'
    /\ objects w' !! this = Some s'
    /\ ok s' = ok o
    /\ status s' = status o
    /\ (ok o = true -> m_Storage s' = m_Storage o)
    /\ (forall b, b <> this -> objects w' !! b = objects w !! b)
    /\ ctor_calls w' = ctor_calls w + Nat.b2n (ok o)
    /\ dtor_calls w' = dtor_calls w.
Proof.
  intros Hw Ho Hne. unfold copy_ctor, deref_addr. rewrite Ho. simpl.
  destruct (m_IsValue o) eqn:Hflag.
  - destruct (reachable_value_state w other o Hw Ho Hflag) as [v ->].
    simpl. eexists _, _. returned_state.
  - eexists _, _. returned_state.
Qed.

(** The move constructor returns on every live source and builds a
    container with the [ok()], the [status()] and the value of the
    source.  Of the source it changes the flag only: the status stays,
    and so does the payload object in its storage, with its value (the
    payload is copied, not moved).  One [T] is constructed exactly when
    the source held a value, none is destructed, and no third container
    changes. *)
Theorem move_ctor_copies_payload w this other o :
  reachable w -> objects w !! other = Some o -> this <> other ->
  exists w' s',
    move_ctor this other w = Ret w'
    /\ objects w' !! this = Some s'
    /\ ok s' = ok o
    /\ status s' = status o
    /\ (ok o = true -> m_Storage s' = m_Storage o)
    /\ objects w' !! other = Some (MkStatusOr (m_Status o) false (m_Storage o))
    /\ (forall b, b <> this -> b <> other -> objects w' !! b = objects w !! b)
    /\ ctor_calls w' = ctor_calls w + Nat.b2n (ok o)
    /\ dtor_calls w' = dtor_calls w.
Proof.
  intros Hw Ho Hne. unfold move_ctor, deref_addr. rewrite Ho. simpl.
  destruct (m_IsValue o) eqn:Hflag.
  - destruct (reachable_value_state w other o Hw Ho Hflag) as [v ->].
    simpl. eexists _, _. returned_state.
  - eexists _, _. returned_state.
    rewrite Ho. destruct o as [st flag buf]. simpl in Hflag. by subst.
Qed.

(** Copy assignment between two distinct live containers returns in
    each of the four cases and makes the target a copy of the source:
    the same [ok()], the same [status()] and, if there is one, the same
    value.  No other container changes, the source included.  A [T] is
    constructed only when a value comes over a target without one, and
    destructed only when a target's value is replaced by a status. *)
Theorem copy_assign_copies w this other s o :
  reachable w -> this <> other ->
  objects w !! this = Some s -> objects w !! other = Some o ->
  exists w' s',
    copy_assign this other w = Ret w'
    /\ objects w' !! this = Some s'
    /\ ok s' = ok o
    /\ status s' = status o
    /\ (ok o = true -> m_Storage s' = m_Storage o)
    /\ (forall b, b <> this -> objects w' !! b = objects w !! b)
    /\ ctor_calls w' = ctor_calls w + Nat.b2n (ok o && negb (ok s))
    /\ dtor_calls w' = dtor_calls w + Nat.b2n (negb (ok o) && ok s).
Proof.
  intros Hw Hne Hs Ho. unfold copy_assign, deref_addr.
  destruct (decide (this = other)) as [|_]; [done|].
  rewrite Hs, Ho. simpl.
  destruct (m_IsValue o) eqn:Hflago; destruct (m_IsValue s) eqn:Hflags.
  - destruct (reachable_value_state w other o Hw Ho Hflago) as [v ->].
    destruct (reachable_value_state w this s Hw Hs Hflags) as [u ->].
    simpl. eexists _, _. returned_state.
  - destruct (reachable_value_state w other o Hw Ho Hflago) as [v ->].
    simpl. eexists _, _. returned_state.
  - destruct (reachable_value_state w this s Hw Hs Hflags) as [u ->].
    simpl. eexists _, _. returned_state.
  - eexists _, _. returned_state.
Qed.

(** Move assignment between two distinct live containers returns in
    each of the four cases and gives the target the [ok()], the
    [status()] and the value of the source.  The source ends with
    [ok() == false] and the status code it had; a payload it held stays
    in its storage in the moved-from state.  No third container
    changes, and [T] is constructed and destructed as in copy
    assignment. *)
Theorem move_assign_moves w this other s o :
  reachable w -> this <> other ->
  objects w !! this = Some s -> objects w !! other = Some o ->
  exists w' s' o',
    move_assign this other w = Ret w'
    /\ objects w' !! this = Some s'
    /\ ok s' = ok o
    /\ status s' = status o
    /\ (ok o = true -> m_Storage s' = m_Storage o)
    /\ objects w' !! other = Some o'
    /\ ok o' = false
    /\ Status.code (status o') = Status.code (status o)
    /\ m_Storage o' = (if ok o then moved_from <$> m_Storage o else m_Storage o)
    /\ (forall b, b <> this -> b <> other -> objects w' !! b = objects w !! b)
    /\ ctor_calls w' = ctor_calls w + Nat.b2n (ok o && negb (ok s))
    /\ dtor_calls w' = dtor_calls w + Nat.b2n (negb (ok o) && ok s).
Proof.
  intros Hw Hne Hs Ho. unfold move_assign, deref_addr, Status_move.
  destruct (decide (this = other)) as [|_]; [done|].
  rewrite Hs, Ho. simpl.
  destruct (m_IsValue o) eqn:Hflago; destruct (m_IsValue s) eqn:Hflags.
  - destruct (reachable_value_state w other o Hw Ho Hflago) as [v ->].
    destruct (reachable_value_state w this s Hw Hs Hflags) as [u ->].
    simpl. eexists _, _, _. returned_state.
  - destruct (reachable_value_state w other o Hw Ho Hflago) as [v ->].
    simpl. eexists _, _, _. returned_state.
  - destruct (reachable_value_state w this s Hw Hs Hflags) as [u ->].
    simpl. eexists _, _, _. returned_state.
  - eexists _, _, _. returned_state.
Qed.

(** The destructor returns on every reachable live container.  It runs
    the destructor of [T] once if the container reports a value and not
    at all otherwise, constructs nothing, ends the container and leaves
    the others as they are. *)
Theorem dtor_destroys_once w a s :
  reachable w -> objects w !! a = Some s ->
  exists w',
    dtor a w = Ret w'
    /\ objects w' !! a = None
    /\ (forall b, b <> a -> objects w' !! b = objects w !! b)
    /\ dtor_calls w' = dtor_calls w + Nat.b2n (ok s)
    /\ ctor_calls w' = ctor_calls w.
Proof.
  intros Hw Ha. unfold dtor, deref_addr. rewrite Ha. simpl.
  destruct (m_IsValue s) eqn:Hflag.
  - destruct (reachable_value_state w a s Hw Ha Hflag) as [v ->].
    simpl. eexists. returned_state.
  - simpl. eexists. returned_state.
Qed.

(** *** What a call leaves alone *)

Lemma unused_Ret a w u : unused a w = Ret u <-> objects w !! a = None.
Proof.
  unfold unused. destruct u. destruct (objects w !! a); split; congruence.
Qed.

(** A call that returns changes no container other than the ones it
    names: its [this] and, for a construction or assignment from
    another container, its [other]. *)
Theorem exec_frame (c : call T) w w' a :
  exec c w = Ret w' -> a ∉ named c -> objects w' !! a = objects w !! a.
Proof.
  intros Hexec Hnot.
  destruct c; simpl in Hexec, Hnot; unfold_calls Hexec;
    repeat (apply not_elem_of_cons in Hnot as [? Hnot]).
  all: split_returns.
  all: subst; by objects_done.
Qed.

(** *** Constructions and destructions balance against the holders *)

Lemma size_lookup_Some {A : Type} (m : gmap addr A) a x :
  m !! a = Some x -> size m = S (size (delete a m)).
Proof.
  intros Ha. rewrite <-(insert_delete_id m a x Ha) at 1.
  apply map_size_insert_None, lookup_delete_eq.
Qed.

Lemma value_holders_store a s w :
  value_holders (store a s w) + holder_weight (objects w !! a)
  = value_holders w + Nat.b2n (m_IsValue s).
Proof.
  unfold value_holders, store, holder_weight. cbn [objects].
  set (P := fun entry : addr * StatusOr T => m_IsValue entry.2 = true).
  rewrite map_filter_insert.
  assert (filter P (objects w) !! a
          = x ← objects w !! a; guard (P (a, x));; Some x) as Hlook
    by apply map_lookup_filter.
  destruct (objects w !! a) as [s0|] eqn:Ha; simpl in Hlook.
  - destruct (decide (P (a, s))) as [Hs|Hs]; unfold P in Hs; simpl in Hs.
    + rewrite Hs. rewrite map_size_insert, Hlook.
      case_guard as Hs0; unfold P in Hs0; simpl in *.
      * rewrite Hs0. simpl. lia.
      * apply not_true_is_false in Hs0. rewrite Hs0. simpl. lia.
    + apply not_true_is_false in Hs. rewrite Hs.
      rewrite map_filter_delete.
      case_guard as Hs0; unfold P in Hs0; simpl in *.
      * rewrite Hs0. rewrite (size_lookup_Some _ a s0 Hlook). simpl. lia.
      * apply not_true_is_false in Hs0. rewrite Hs0.
        rewrite map_size_delete_None by done. simpl. lia.
  - destruct (decide (P (a, s))) as [Hs|Hs]; unfold P in Hs; simpl in Hs.
    + rewrite Hs. rewrite map_size_insert, Hlook. simpl. lia.
    + apply not_true_is_false in Hs. rewrite Hs.
      rewrite map_filter_delete, map_size_delete_None by done. simpl. lia.
Qed.

Lemma value_holders_release a w :
  value_holders (release a w) + holder_weight (objects w !! a)
  = value_holders w.
Proof.
  unfold value_holders, release, holder_weight. cbn [objects].
  set (P := fun entry : addr * StatusOr T => m_IsValue entry.2 = true).
  rewrite map_filter_delete.
  assert (filter P (objects w) !! a
          = x ← objects w !! a; guard (P (a, x));; Some x) as Hlook
    by apply map_lookup_filter.
  destruct (objects w !! a) as [s0|] eqn:Ha; simpl in Hlook.
  - case_guard as Hs0; unfold P in Hs0; simpl in *.
    + rewrite Hs0. rewrite (size_lookup_Some _ a s0 Hlook). simpl. lia.
    + apply not_true_is_false in Hs0. rewrite Hs0.
      rewrite map_size_delete_None by done. simpl. lia.
  - rewrite map_size_delete_None by done. lia.
Qed.

Lemma value_holders_count_ctor w :
  value_holders (count_ctor w) = value_holders w.
Proof. reflexivity. Qed.

Lemma value_holders_count_dtor w :
  value_holders (count_dtor w) = value_holders w.
Proof. reflexivity. Qed.

Lemma objects_count_ctor w : objects (count_ctor w) = objects w.
Proof. reflexivity. Qed.

Lemma objects_count_dtor w : objects (count_dtor w) = objects w.
Proof. reflexivity. Qed.

(** Replace the holders of an updated state by a number related to
    the holders of the state before the update. *)
Ltac holders_of_update :=
  repeat first
    [ rewrite value_holders_count_ctor in *
    | rewrite value_holders_count_dtor in *
    | match goal with
      | |- context [value_holders (store ?a ?s ?w0)] =>
          let n := fresh "n" in
          pose proof (value_holders_store a s w0);
          set (n := value_holders (store a s w0)) in *; clearbody n
      | H : context [value_holders (store ?a ?s ?w0)] |- _ =>
          let n := fresh "n" in
          pose proof (value_holders_store a s w0);
          set (n := value_holders (store a s w0)) in *; clearbody n
      | |- context [value_holders (release ?a ?w0)] =>
          let n := fresh "n" in
          pose proof (value_holders_release a w0);
          set (n := value_holders (release a w0)) in *; clearbody n
      end ].

(** Evaluate the weights of the containers the update replaced. *)
Ltac weights :=
  repeat first
    [ rewrite objects_count_ctor in *
    | rewrite objects_count_dtor in *
    | rewrite lookup_store_eq in *
    | rewrite lookup_store_ne in * by congruence
    | match goal with
      | H : objects ?w0 !! ?a = _, H' : context [objects ?w0 !! ?a] |- _ =>
          rewrite H in H'
      end ];
  unfold holder_weight in *;
  cbn [m_IsValue ctor_calls dtor_calls count_ctor count_dtor store release]
    in *;
  repeat match goal with
  | H : m_IsValue ?x = _, H' : context [m_IsValue ?x] |- _ => rewrite H in H'
  end;
  cbn [Nat.b2n] in *.

Lemma exec_balance c w w' :
  value_holders w + dtor_calls w <= ctor_calls w ->
  exec c w = Ret w' ->
  value_holders w' + dtor_calls w' <= ctor_calls w'.
Proof.
  intros Hw Hexec.
  destruct c; simpl in Hexec; unfold_calls Hexec.
  all: split_returns.
  all: repeat match goal with
       | H : unused _ _ = Ret _ |- _ => apply unused_Ret in H
       end.
  all: subst; try assumption.
  all: holders_of_update; weights; try lia.
Qed.

(** In every reachable state the payloads constructed in container
    storage cover the payloads destructed plus one per container that
    reports a value: the destructor of [T] never runs more often than
    its constructors, and the live instances are never fewer than the
    containers holding a value. *)
Theorem reachable_balance w :
  reachable w ->
  value_holders w + dtor_calls w <= ctor_calls w
  /\ dtor_calls w <= ctor_calls w
  /\ (Z.of_nat (value_holders w) <= live_instances w)%Z.
Proof.
  intros Hw.
  assert (value_holders w + dtor_calls w <= ctor_calls w) as Hbal.
  { induction Hw as [|w c w' _ IH Hexec].
    - unfold value_holders. simpl. rewrite map_filter_empty, map_size_empty.
      lia.
    - exact (exec_balance c w w' IH Hexec). }
  unfold live_instances. lia.
Qed.

Lemma exec_balance_without_moves c w w' :
  moves c = false ->
  value_holders w + dtor_calls w = ctor_calls w ->
  exec c w = Ret w' ->
  value_holders w' + dtor_calls w' = ctor_calls w'.
Proof.
  intros Hc Hw Hexec.
  destruct c; try discriminate Hc; simpl in Hexec; unfold_calls Hexec.
  all: split_returns.
  all: repeat match goal with
       | H : unused _ _ = Ret _ |- _ => apply unused_Ret in H
       end.
  all: subst; try assumption.
  all: holders_of_update; weights; try lia.
Qed.

(** A program that never moves out of a container (no move
    construction, no move assignment, no rvalue [value()]) keeps
    constructions and destructions in balance: the payloads constructed
    are the payloads destructed plus those of the containers holding a
    value, and once no container is left every payload constructed has
    been destructed. *)
Theorem run_without_moves_balanced (cs : list (call T)) w :
  Forall (fun c => moves c = false) cs ->
  run cs empty_world = Ret w ->
  value_holders w + dtor_calls w = ctor_calls w
  /\ (objects w = ∅ -> dtor_calls w = ctor_calls w).
Proof.
  intros Hcs Hrun.
  assert (value_holders w + dtor_calls w = ctor_calls w) as Hbal.
  { assert (value_holders (@empty_world T) + dtor_calls (@empty_world T)
            = ctor_calls (@empty_world T)) as Hstart.
    { unfold value_holders. simpl. by rewrite map_filter_empty, map_size_empty. }
    revert Hrun Hstart. generalize (@empty_world T) as w0.
    induction Hcs as [|c cs Hc _ IH]; intros w0 Hrun Hstart; simpl in Hrun.
    - by injection Hrun as <-.
    - apply bind_Ret in Hrun as (w1 & Hexec & Hrun).
      apply (IH w1 Hrun).
      exact (exec_balance_without_moves c w0 w1 Hc Hstart Hexec). }
  split; [exact Hbal|].
  intros Hempty. unfold value_holders in Hbal.
  rewrite Hempty, map_filter_empty, map_size_empty in Hbal. lia.
Qed.

(** *** Where the checks do not protect *)

(** A copy of a container that reports no value and has an OK status
    (a moved-from container) has nothing in its storage, yet [value()]
    on the copy passes the check and reads the storage; [value_or] on
    it returns the default. *)
Theorem copy_of_moved_from_reads_empty_storage w this other o (d : T) :
  reachable w -> objects w !! other = Some o ->
  ok o = false -> Status.ok (status o) = true ->
  exists w' s',
    copy_ctor this other w = Ret w'
    /\ objects w' !! this = Some s'
    /\ m_Storage s' = None
    /\ value_const s' = Undefined
    /\ value_lvalue s' = Undefined
    /\ value_or s' d = Ret d.
Proof.
  intros Hw Ho Hflag Hst. unfold ok, status in *.
  unfold copy_ctor, deref_addr. rewrite Ho. simpl. rewrite Hflag.
  eexists _, _. split; [reflexivity|].
  split; [apply lookup_store_eq|].
  unfold value_or, value_const, value_lvalue, read_storage, ok. simpl.
  rewrite Hst. repeat split.
Qed.

(** The rvalue overload of [value()] can be called again on the
    container it emptied: the first call returns the held value, the
    second passes the check as well and returns what the move left in
    the storage. *)
Theorem value_rvalue_twice w a s :
  reachable w -> objects w !! a = Some s -> ok s = true ->
  exists v w1 w2 s2,
    m_Storage s = Some v
    /\ value_rvalue a w = Ret (v, w1)
    /\ value_rvalue a w1 = Ret (moved_from v, w2)
    /\ objects w2 !! a = Some s2
    /\ ok s2 = false
    /\ m_Storage s2 = Some (moved_from (moved_from v)).
Proof.
  intros Hw Ha Hok.
  destruct (reachable_value_state w a s Hw Ha Hok) as [v ->].
  exists v. eexists _, _, _. split; [reflexivity|].
  split; [by apply value_rvalue_checked|].
  split; [apply value_rvalue_checked; [apply lookup_store_eq|done|done]|].
  split; [apply lookup_store_eq|]. done.
Qed.

(** *** Copy, then destroy the copy *)

(** Copying a live container into unused storage and destroying the
    copy returns to the containers there were: every container,
    the source included, is as before, and the copy cost one
    construction and one destruction of [T] exactly when the source
    holds a value. *)
Theorem copy_then_destroy_restores w this other o :
  reachable w -> objects w !! other = Some o -> objects w !! this = None ->
  exists w1 w2,
    copy_ctor this other w = Ret w1
    /\ dtor this w1 = Ret w2
    /\ objects w2 = objects w
    /\ ctor_calls w2 = ctor_calls w + Nat.b2n (ok o)
    /\ dtor_calls w2 = dtor_calls w + Nat.b2n (ok o).
Proof.
  intros Hw Ho Hthis. unfold copy_ctor, deref_addr at 1. rewrite Ho. simpl.
  destruct (m_IsValue o) eqn:Hflag.
  - destruct (reachable_value_state w other o Hw Ho Hflag) as [v ->].
    simpl. eexists _, _. split; [reflexivity|].
    split.
    { unfold dtor, deref_addr.
      rewrite objects_count_ctor, lookup_store_eq. reflexivity. }
    split_and!; fields; try lia.
    rewrite insert_insert_eq, delete_insert_eq. by apply delete_id.
  - eexists _, _. split; [reflexivity|].
    split.
    { unfold dtor, deref_addr. rewrite lookup_store_eq. reflexivity. }
    split_and!; fields; try lia.
    rewrite delete_insert_eq. by apply delete_id.
Qed.

End StatusOr_lifecycle.

(** ** StatusOr: which calls do not return *)

Section StatusOr_outcomes.

Context {T : Type} `{MT : Movable T} `{MS : Movable string}.

Implicit Types (w : World T) (s o : StatusOr T) (this other : addr).

(** Bring the containers a call names into the context, those that
    report a value in the form every reachable one has. *)
Ltac live_containers Hw :=
  repeat match goal with
  | H : _ /\ _ |- _ => destruct H
  | H : is_Some (objects _ !! _) |- _ =>
      let s := fresh "s" in
      let Hs := fresh "Hs" in
      destruct H as [s Hs]
  end;
  repeat match goal with
  | H : objects ?w0 !! ?a = Some ?s0 |- _ =>
      is_var s0;
      let flag := fresh "Hflag" in
      destruct (m_IsValue s0) eqn:flag;
      [ let v := fresh "v" in
        destruct (reachable_value_state w0 a s0 Hw H flag) as [v ->];
        clear flag
      | destruct s0 as [? ? ?]; simpl in flag; subst ]
  end.

(** Among the calls applied to live containers of a reachable state
    (constructors: to unused storage), the only ones that read storage
    without an object are [value()] and [operator*] on a
    container whose status is OK and whose storage is empty; the only
    ones that end in the fatal check are the same accessors on a
    container whose status is not OK, and the construction from an OK
    status.  Every other call returns: construction, assignment,
    destruction, [ok()], [status()], [value_or] and the conversion to
    [bool]. *)
Theorem exec_outcomes (c : call T) w :
  reachable w -> well_addressed c w ->
  (exec c w = Undefined <->
     exists a s, value_access c = Some a /\ objects w !! a = Some s
       /\ Status.ok (status s) = true /\ m_Storage s = None)
  /\ (exec c w = Fatal <->
     (exists a s, value_access c = Some a /\ objects w !! a = Some s
        /\ Status.ok (status s) = false)
     \/ (exists this st, c = CtorStatus this st /\ Status.ok st = true)).
Proof.
  intros Hw Hwa.
  destruct c; simpl in Hwa; live_containers Hw; simpl;
    unfold observe, unused, ctor_value, ctor_status, ctor_in_place,
      copy_ctor, move_ctor, copy_assign, move_assign, dtor, value_rvalue,
      deref_rvalue, value_or, value_const, value_lvalue, deref_const,
      deref_lvalue, deref_addr, read_storage,
      Status_move, status, ok, Status.ok.
  all: repeat match goal with
       | H : objects _ !! _ = _ |- _ => rewrite H
       end; simpl.
  all: repeat case_decide; simpl.
  all: repeat match goal with
       | |- context [N.eqb ?x ?y] => destruct (N.eqb x y) eqn:?; simpl
       | |- context [match ?b with Some _ => _ | None => _ end] =>
           is_var b; destruct b; simpl
       end.
  all: split; split; intros Hres; try discriminate Hres.
  all: try (left; eexists _, _; split_and!; [reflexivity | eassumption | done]).
  all: try (right; eexists _, _; split_and!; [reflexivity | done]).
  all: try (eexists _, _; split_and!; [reflexivity | eassumption | done..]).
  all: repeat match goal with
       | H : _ \/ _ |- _ => destruct H
       | H : exists _, _ |- _ => destruct H
       | H : _ /\ _ |- _ => destruct H
       end; simplify_eq/=.
  all: repeat match goal with
       | H1 : objects ?w0 !! ?a = Some _, H2 : objects ?w0 !! ?a = Some _ |- _ =>
           rewrite H1 in H2; simplify_eq/=
       end.
  all: congruence.
Qed.

End StatusOr_outcomes.

(** ** StatusOr<int>: the lifecycle theorems on concrete runs *)

Section StatusOr_int_lifecycle.

#[local] Existing Instances Movable_int Movable_std_string.

Lemma reachable_value_status_is_OK_witness :
  reachable both_world /\ ok holds_42 = true
  /\ status holds_42 = Status.OK.
Proof.
  split; [exact both_world_reachable|]. split; [reflexivity|].
  apply (reachable_value_status_is_OK both_world 0%nat holds_42
           both_world_reachable both_world_value eq_refl).
Defined.

Lemma copy_ctor_copies_witness :
  reachable both_world
  /\ exists w' s',
       copy_ctor 2%nat 0%nat both_world = Ret w'
       /\ objects w' !! 2%nat = Some s'
       /\ ok s' = true
       /\ (forall b, b <> 2%nat -> objects w' !! b = objects both_world !! b)
       /\ ctor_calls w' = 2.
Proof.
  split; [exact both_world_reachable|].
  destruct (copy_ctor_copies both_world 2%nat 0%nat holds_42
              both_world_reachable both_world_value ltac:(discriminate))
    as (w' & s' & Hrun & Hs' & Hok & _ & _ & Hframe & Hc & _).
  exists w', s'. repeat split; assumption.
Defined.

Lemma move_ctor_copies_payload_witness :
  reachable both_world
  /\ exists w' s',
       move_ctor 2%nat 0%nat both_world = Ret w'
       /\ objects w' !! 2%nat = Some s'
       /\ ok s' = true
       /\ objects w' !! 0%nat = Some moved_42
       /\ ctor_calls w' = 2.
Proof.
  split; [exact both_world_reachable|].
  destruct (move_ctor_copies_payload both_world 2%nat 0%nat holds_42
              both_world_reachable both_world_value ltac:(discriminate))
    as (w' & s' & Hrun & Hs' & Hok & _ & _ & Ho' & _ & Hc & _).
  exists w', s'. repeat split; assumption.
Defined.

Lemma copy_assign_copies_witness :
  reachable both_world
  /\ exists w' s',
       copy_assign 0%nat 1%nat both_world = Ret w'
       /\ objects w' !! 0%nat = Some s'
       /\ ok s' = false
       /\ status s' = missing_key
       /\ objects w' !! 1%nat = Some holds_missing_key
       /\ dtor_calls w' = 1.
Proof.
  split; [exact both_world_reachable|].
  destruct (copy_assign_copies both_world 0%nat 1%nat holds_42
              holds_missing_key both_world_reachable ltac:(discriminate)
              both_world_value both_world_error)
    as (w' & s' & Hrun & Hs' & Hok & Hst & _ & Hframe & _ & Hd).
  exists w', s'. split; [exact Hrun|]. split; [exact Hs'|].
  split; [exact Hok|]. split; [exact Hst|].
  split; [|exact Hd].
  exact (eq_trans (Hframe 1%nat ltac:(discriminate)) both_world_error).
Defined.

Lemma move_assign_moves_witness :
  reachable both_world
  /\ exists w' s' o',
       move_assign 1%nat 0%nat both_world = Ret w'
       /\ objects w' !! 1%nat = Some s'
       /\ ok s' = true
       /\ m_Storage s' = Some 42%Z
       /\ objects w' !! 0%nat = Some o'
       /\ ok o' = false
       /\ ctor_calls w' = 2.
Proof.
  split; [exact both_world_reachable|].
  destruct (move_assign_moves both_world 1%nat 0%nat holds_missing_key
              holds_42 both_world_reachable ltac:(discriminate)
              both_world_error both_world_value)
    as (w' & s' & o' & Hrun & Hs' & Hok & _ & Hv & Ho' & Hoko & _ & _ & _
        & Hc & _).
  exists w', s', o'. repeat split; try assumption. exact (Hv eq_refl).
Defined.

Lemma dtor_destroys_once_witness :
  reachable both_world
  /\ exists w',
       dtor 0%nat both_world = Ret w'
       /\ objects w' !! 0%nat = None
       /\ dtor_calls w' = 1.
Proof.
  split; [exact both_world_reachable|].
  destruct (dtor_destroys_once both_world 0%nat holds_42
              both_world_reachable both_world_value)
    as (w' & Hrun & Hgone & _ & Hd & _).
  exists w'. repeat split; assumption.
Defined.

Lemma exec_frame_witness :
  exec (MoveAssign 1%nat 0%nat) both_world
  = Ret (store 0%nat moved_42 (count_ctor (store 1%nat holds_42 both_world)))
  /\ (2%nat ∉ named (@MoveAssign Z 1%nat 0%nat))
  /\ objects (store 0%nat moved_42
                (count_ctor (store 1%nat holds_42 both_world))) !! 2%nat
     = objects both_world !! 2%nat.
Proof.
  assert (exec (MoveAssign 1%nat 0%nat) both_world
          = Ret (store 0%nat moved_42
                   (count_ctor (store 1%nat holds_42 both_world)))) as Hrun
    by reflexivity.
  assert (2%nat ∉ named (@MoveAssign Z 1%nat 0%nat)) as Hnot.
  { simpl. apply not_elem_of_cons. split; [discriminate|].
    apply not_elem_of_cons. split; [discriminate|]. apply not_elem_of_nil. }
  split; [exact Hrun|]. split; [exact Hnot|].
  exact (exec_frame (MoveAssign 1%nat 0%nat) both_world _ 2%nat Hrun Hnot).
Defined.

Lemma reachable_balance_witness :
  reachable move_world
  /\ dtor_calls move_world <= ctor_calls move_world
  /\ (Z.of_nat (value_holders move_world) <= live_instances move_world)%Z.
Proof.
  split; [exact move_world_reachable|].
  destruct (reachable_balance move_world move_world_reachable)
    as (_ & Hd & Hlive).
  split; assumption.
Defined.

Lemma run_without_moves_balanced_witness :
  Forall (fun c => moves c = false) both_program
  /\ run both_program empty_world = Ret both_world
  /\ value_holders both_world + dtor_calls both_world = ctor_calls both_world.
Proof.
  assert (Forall (fun c : call Z => moves c = false) both_program) as Hcs
    by (repeat constructor).
  split; [exact Hcs|]. split; [exact both_program_runs|].
  apply (run_without_moves_balanced both_program both_world Hcs
           both_program_runs).
Defined.

Lemma copy_of_moved_from_reads_empty_storage_witness :
  reachable move_world
  /\ ok moved_42 = false /\ Status.ok (status moved_42) = true
  /\ exists w' s',
       copy_ctor 2%nat 0%nat move_world = Ret w'
       /\ objects w' !! 2%nat = Some s'
       /\ value_const s' = Undefined
       /\ value_or s' 7%Z = Ret 7%Z.
Proof.
  split; [exact move_world_reachable|]. split; [reflexivity|].
  split; [reflexivity|].
  destruct (copy_of_moved_from_reads_empty_storage move_world 2%nat 0%nat
              moved_42 7%Z move_world_reachable move_world_source
              eq_refl eq_refl)
    as (w' & s' & Hrun & Hs' & _ & Hc & _ & Hor).
  exists w', s'. repeat split; assumption.
Defined.

Lemma value_rvalue_twice_witness :
  reachable both_world /\ ok holds_42 = true
  /\ exists w1 w2,
       value_rvalue 0%nat both_world = Ret (42%Z, w1)
       /\ value_rvalue 0%nat w1 = Ret (42%Z, w2).
Proof.
  split; [exact both_world_reachable|]. split; [reflexivity|].
  destruct (value_rvalue_twice both_world 0%nat holds_42
              both_world_reachable both_world_value eq_refl)
    as (v & w1 & w2 & s2 & Hv & Hfirst & Hsecond & _).
  injection Hv as <-. exists w1, w2. split; assumption.
Defined.

Lemma copy_then_destroy_restores_witness :
  reachable both_world /\ objects both_world !! 2%nat = None
  /\ exists w1 w2,
       copy_ctor 2%nat 0%nat both_world = Ret w1
       /\ dtor 2%nat w1 = Ret w2
       /\ objects w2 = objects both_world
       /\ ctor_calls w2 = 2 /\ dtor_calls w2 = 1.
Proof.
  split; [exact both_world_reachable|]. split; [reflexivity|].
  destruct (copy_then_destroy_restores both_world 2%nat 0%nat holds_42
              both_world_reachable both_world_value eq_refl)
    as (w1 & w2 & Hcopy & Hdtor & Hobjs & Hc & Hd).
  exists w1, w2. repeat split; assumption.
Defined.

Lemma exec_outcomes_witness :
  reachable copy_of_moved_world
  /\ well_addressed (ValueConst 2%nat) copy_of_moved_world
  /\ exec (ValueConst 2%nat) copy_of_moved_world = Undefined
  /\ exec (ValueOr 2%nat 7%Z) copy_of_moved_world <> Undefined.
Proof.
  assert (reachable copy_of_moved_world) as Hw.
  { apply (run_reachable copy_of_moved_program empty_world);
      [apply reachable_start | apply copy_of_moved_program_runs]. }
  assert (objects copy_of_moved_world !! 2%nat = Some holds_nothing) as Hd
    by reflexivity.
  split; [exact Hw|]. split; [by exists holds_nothing|]. split.
  - apply (exec_outcomes (ValueConst 2%nat) copy_of_moved_world Hw).
    + by exists holds_nothing.
    + exists 2%nat, holds_nothing. by repeat split.
  - intros Hundef.
    apply (exec_outcomes (ValueOr 2%nat 7%Z) copy_of_moved_world Hw) in Hundef
      as (a & s & Haccess & _); [discriminate Haccess|].
    by exists holds_nothing.
Defined.

End StatusOr_int_lifecycle.
